(** * S3 link plugin: element resolver and retrieval client

    A shallow embedding of [src/resolver/imageResolver.ts] (the image
    resolver) and [src/network/client.ts] (the S3 retrieval client),
    with the properties the specification states about them.  Console
    output is left out: no property below depends on it. *)

From Stdlib Require Import ZArith.
From stdpp Require Import gmap strings list fin_maps.

Local Open Scope string_scope.
Local Open Scope list_scope.
Local Set Warnings "-register-all".

(** ** JavaScript values used by both files *)

(** A thrown [Error]: only its message is observable here. *)
Record JsError := mkError { message : string }.

(** [String.prototype.split(separator)] with a string separator and no limit.
    A non-empty separator is searched left to right; after a match the scan
    resumes behind it.  [skip] counts the characters of a matched separator
    that are still to be passed over, [cur] is the part being collected. *)
Fixpoint split_go (sep : string) (skip : nat) (cur s : string) : list string :=
  match s with
  | EmptyString => [cur]
  | String c s' =>
      match skip with
      | S n => split_go sep n cur s'
      | O =>
          if String.prefix sep s
          then cur :: split_go sep (String.length sep - 1) "" s'
          else split_go sep 0 (cur +:+ String c "") s'
      end
  end.

Fixpoint code_units (s : string) : list string :=
  match s with
  | EmptyString => []
  | String c s' => String c "" :: code_units s'
  end.

(** The empty separator cuts the string into its code units (and the empty
    string into no part at all). *)
Definition split (s sep : string) : list string :=
  match sep with
  | EmptyString => code_units s
  | _ => split_go sep 0 "" s
  end.

(** ** Configuration

    [src/config.ts] is imported by both files; its values are not part of the
    sources at hand, so every definition takes the configuration as a value. *)
Record Config := {
  S3_LINK_SPLITTER : string;
  S3_LINK_PREFIX : string;
  S3_SIGNED_LINK_PREFIX : string;
  S3_SIGNED_LINK_EXPIRATION_TIME_SECONDS : Z;
}.

(** Modelled from the spec: the values of [Config] are missing; the
    specification's scenarios read the reference [s3://photo.png] as the direct
    marker followed by the key [photo.png], and [s3-signed://doc.pdf] as the
    signed marker followed by the key [doc.pdf].  The expiry is a sample
    value; the specification only says it is a number of seconds. *)
Definition spec_config : Config := {|
  S3_LINK_SPLITTER := "//";
  S3_LINK_PREFIX := "s3:";
  S3_SIGNED_LINK_PREFIX := "s3-signed:";
  S3_SIGNED_LINK_EXPIRATION_TIME_SECONDS := 3600;
|}.

(** ** The rendered tree *)

(** An element of the rendered tree.  [uid] stands for the identity of the
    JavaScript object, [localName] is what a type selector matches, [src] is
    the value the [src] property returns. *)
Inductive HTMLElement :=
  Element (uid : nat) (localName : string) (src : string)
          (children : list HTMLElement).

Definition uid (e : HTMLElement) : nat :=
  match e with Element i _ _ _ => i end.
Definition localName (e : HTMLElement) : string :=
  match e with Element _ n _ _ => n end.
Definition src (e : HTMLElement) : string :=
  match e with Element _ _ s _ => s end.
Definition children (e : HTMLElement) : list HTMLElement :=
  match e with Element _ _ _ cs => cs end.

(** The element and everything below it, in document order. *)
Fixpoint inclusive_descendants (e : HTMLElement) : list HTMLElement :=
  match e with
  | Element _ _ _ cs => e :: flat_map inclusive_descendants cs
  end.

(** [element.querySelectorAll(selector)] for a type selector: the matching
    descendants of the element (never the element itself), in document
    order. *)
Definition querySelectorAll (element : HTMLElement) (selector : string)
  : list HTMLElement :=
  filter (λ e, localName e = selector)
         (flat_map inclusive_descendants (children element)).

(** ** Resolver (base class of the image resolver) *)

(** A [Map<string, HTMLElement[]>].  At run time a key can also be
    [undefined] (an index past the end of [parts]); [None] stands for it. *)
Abbreviation KeyToElementsMap := (gmap (option string) (list HTMLElement)).

Module Resolver.

(** The fields of a resolver instance. *)
Record t := mk {
  objectKeys : KeyToElementsMap;
  signObjectKeys : KeyToElementsMap;
}.

(** Modelled from the spec: [src/resolver/resolver.ts] is missing; the
    classifier compares the first part of the split reference and takes the
    second part as the object key. *)
Definition s3LinkLeftPart : nat := 0.
Definition s3LinkRightPart : nat := 1.

(** Modelled from the spec: the base class's map helper is missing.  It
    appends the element to the sequence of the key, creating the sequence
    if the key is new. *)
Definition addElement (key : option string) (element : HTMLElement)
    (m : KeyToElementsMap) : KeyToElementsMap :=
  match m !! key with
  | Some elements => <[key := elements ++ [element]]> m
  | None => <[key := [element]]> m
  end.

Definition addObjectKey (key : option string) (element : HTMLElement)
    (this : t) : t :=
  {| objectKeys := addElement key element (objectKeys this);
     signObjectKeys := signObjectKeys this |}.

Definition addSignObjectKey (key : option string) (element : HTMLElement)
    (this : t) : t :=
  {| objectKeys := objectKeys this;
     signObjectKeys := addElement key element (signObjectKeys this) |}.

(** Modelled from the spec: the base class's clearing helpers are missing.
    They drop every accumulated entry of their map. *)
Definition clearObjectKeys (this : t) : t :=
  {| objectKeys := ∅; signObjectKeys := signObjectKeys this |}.

Definition clearSignObjectKeys (this : t) : t :=
  {| objectKeys := objectKeys this; signObjectKeys := ∅ |}.

End Resolver.

(** ** ImageResolver *)

Module ImageResolver.
Import Resolver.

Definition targetElement : string := "img".

(** The returned object literal. *)
Record Resolved := {
  r_objectKeys : KeyToElementsMap;
  r_signObjectKeys : KeyToElementsMap;
}.

Inductive Kind :=
| DIRECT (objectKey : option string)
| SIGNED (objectKey : option string)
| UNRELATED.

#[export] Instance Kind_eq_dec : EqDecision Kind.
Proof. solve_decision. Defined.

Section WithConfig.
Context (config : Config).

(** The body of the [forEach] callback.  [parts[i]] is [parts !! i]: an
    index past the end reads [undefined], and [undefined == "..."] is
    false. *)
Definition visit (this : t) (imageElement : HTMLElement) : t :=
  let parts := split (src imageElement) (S3_LINK_SPLITTER config) in
  if decide (parts !! s3LinkLeftPart = Some (S3_LINK_PREFIX config)) then
    addObjectKey (parts !! s3LinkRightPart) imageElement this
  else if decide (parts !! s3LinkLeftPart
                  = Some (S3_SIGNED_LINK_PREFIX config)) then
    addSignObjectKey (parts !! s3LinkRightPart) imageElement this
  else this.

(** The decision [visit] takes on a reference, as a value: the
    classifier of the specification. *)
Definition classify (rawReference : string) : Kind :=
  let parts := split rawReference (S3_LINK_SPLITTER config) in
  if decide (parts !! s3LinkLeftPart = Some (S3_LINK_PREFIX config)) then
    DIRECT (parts !! s3LinkRightPart)
  else if decide (parts !! s3LinkLeftPart
                  = Some (S3_SIGNED_LINK_PREFIX config)) then
    SIGNED (parts !! s3LinkRightPart)
  else UNRELATED.

Definition resolveHtmlElement (this : t) (element : HTMLElement)
  : Resolved * t :=
  let imageElements := querySelectorAll element targetElement in
  let this := clearObjectKeys this in
  let this := clearSignObjectKeys this in
  if Nat.eqb (length imageElements) 0 then
    ({| r_objectKeys := objectKeys this;
        r_signObjectKeys := signObjectKeys this |}, this)
  else
    let this := foldl visit this imageElements in
    ({| r_objectKeys := objectKeys this;
        r_signObjectKeys := signObjectKeys this |}, this).

End WithConfig.
End ImageResolver.

(** ** DownloadManager: the interface the client calls *)

Inductive S3NetworkState := QUEUED | RUNNING | COMPLETED | ERROR.

Module DownloadManager.

(** The four mutating methods the client invokes on the singleton. *)
Inductive Call :=
| addNewDownload (objectKey versionId : string)
| setRunningState (objectKey versionId : string)
| setCompletedState (objectKey versionId : string)
| setErrorState (objectKey versionId : string).

(** [src/network/downloadManager.ts] is not among the sources at hand.  The
    client is written against this interface: a registry of type [R] and
    the effect of each call on it. *)
Class Ops (R : Type) := { perform : Call → R → R }.

End DownloadManager.


(** Modelled from the spec: the download manager is missing.  A manager
    whose records can be read and whose methods make the transitions the
    specification gives them: a registration creates a missing record in
    QUEUED, and the setters go from QUEUED to RUNNING, from RUNNING to
    COMPLETED, and from any state that is not terminal to ERROR.  What a
    registration does to a record that exists already is the manager's
    policy and is not fixed here. *)
Class Lifecycle (R : Type) `{!DownloadManager.Ops R} := {
  state : string → string → R → option S3NetworkState;
  queued_when_new : ∀ k v r,
    state k v r = None →
    state k v (DownloadManager.perform (DownloadManager.addNewDownload k v) r)
    = Some QUEUED;
  running_from_queued : ∀ k v r,
    state k v r = Some QUEUED →
    state k v (DownloadManager.perform (DownloadManager.setRunningState k v) r)
    = Some RUNNING;
  completed_from_running : ∀ k v r,
    state k v r = Some RUNNING →
    state k v
      (DownloadManager.perform (DownloadManager.setCompletedState k v) r)
    = Some COMPLETED;
  error_from_active : ∀ k v r,
    state k v r = Some QUEUED ∨ state k v r = Some RUNNING →
    state k v (DownloadManager.perform (DownloadManager.setErrorState k v) r)
    = Some ERROR;
}.

(** Modelled from the spec: the download manager itself is missing.  The
    specification describes it as a registry with one record per
    (object key, version id) and the lifecycle QUEUED, RUNNING, then COMPLETED
    or ERROR, the last two being terminal. *)
Module Coordinator.

Abbreviation Registry := (gmap (string * string) S3NetworkState).

(** Creates a record in state QUEUED; a no-op when one exists. *)
Definition registerAttempt (key versionId : string) (r : Registry)
  : Registry :=
  match r !! (key, versionId) with
  | Some _ => r
  | None => <[(key, versionId) := QUEUED]> r
  end.

(** QUEUED to RUNNING; benign when already RUNNING. *)
Definition markRunning (key versionId : string) (r : Registry) : Registry :=
  match r !! (key, versionId) with
  | Some QUEUED => <[(key, versionId) := RUNNING]> r
  | _ => r
  end.

(** RUNNING to COMPLETED. *)
Definition markCompleted (key versionId : string) (r : Registry)
  : Registry :=
  match r !! (key, versionId) with
  | Some RUNNING => <[(key, versionId) := COMPLETED]> r
  | _ => r
  end.

(** Any non-terminal state to ERROR. *)
Definition markError (key versionId : string) (r : Registry) : Registry :=
  match r !! (key, versionId) with
  | Some QUEUED | Some RUNNING => <[(key, versionId) := ERROR]> r
  | _ => r
  end.

Definition getState (key versionId : string) (r : Registry)
  : option S3NetworkState :=
  r !! (key, versionId).

#[export] Instance ops : DownloadManager.Ops Registry := {|
  DownloadManager.perform call :=
    match call with
    | DownloadManager.addNewDownload k v => registerAttempt k v
    | DownloadManager.setRunningState k v => markRunning k v
    | DownloadManager.setCompletedState k v => markCompleted k v
    | DownloadManager.setErrorState k v => markError k v
    end
|}.

#[export] Instance lifecycle : Lifecycle Registry.
Proof.
  refine {| state := getState |}; intros k v r; unfold getState; simpl.
  - intros Hr. unfold registerAttempt. rewrite Hr. apply lookup_insert_eq.
  - intros Hr. unfold markRunning. rewrite Hr. apply lookup_insert_eq.
  - intros Hr. unfold markCompleted. rewrite Hr. apply lookup_insert_eq.
  - intros [Hr|Hr]; unfold markError; rewrite Hr; apply lookup_insert_eq.
Defined.

End Coordinator.

(** ** The remote object store, as the client sees it *)

Record ObjectVersion := {
  ov_Key : option string;
  ov_VersionId : option string;
}.

Record ListObjectVersionsCommand := {
  lov_Bucket : string;
  lov_Prefix : string;
}.

Record ListObjectVersionsCommandOutput := {
  Versions : option (list ObjectVersion);
}.

Record GetObjectCommand := {
  go_Bucket : string;
  go_Key : string;
}.

Abbreviation Buffer := (list Byte.byte).

(** A browser [ReadableStream] seen through its reader: each [reader.read()]
    resolves with a chunk, resolves with [done], or rejects. *)
Inductive ReadableStream :=
| Chunk (value : Buffer) (rest : ReadableStream)
| Done
| Rejects (reason : JsError).

Record GetObjectCommandOutput := {
  Body : option ReadableStream;
}.

(** An initialised [S3Client].  What the store answers is outside the
    program; the record fixes the answer to each request. *)
Record S3Client := {
  answerListObjectVersions :
    ListObjectVersionsCommand → JsError + ListObjectVersionsCommandOutput;
  answerGetObject : GetObjectCommand → JsError + GetObjectCommandOutput;
  answerGetSignedUrl : GetObjectCommand → Z → JsError + string;
}.

(** The settings fields the protocol operations read. *)
Record PluginSettings := {
  bucketName : string;
}.

(** ** Effects *)

Inductive Event :=
| Coordinator (call : DownloadManager.Call)
| SendListObjectVersions (command : ListObjectVersionsCommand)
| SendGetObject (command : GetObjectCommand)
| GetSignedUrl (command : GetObjectCommand) (expiresIn : Z).

Definition coordinator_calls (es : list Event) : list DownloadManager.Call :=
  omap (λ e, match e with Coordinator c => Some c | _ => None end) es.

Section Effects.
Context {R : Type} `{!DownloadManager.Ops R}.

(** The state outside the client object: the singleton's registry and, in
    order, the coordinator calls and remote requests made so far. *)
Record World := {
  registry : R;
  events : list Event;
}.

(** An asynchronous method: it may change the world, and it either returns
    or throws.  Changes made before a throw persist. *)
Definition M (A : Type) : Type := World → (JsError + A) * World.

Definition ret {A} (a : A) : M A := λ w, (inr a, w).

Definition throw {A} (e : JsError) : M A := λ w, (inl e, w).

Definition bind {A B} (m : M A) (k : A → M B) : M B :=
  λ w, match m w with
       | (inr a, w') => k a w'
       | (inl e, w') => (inl e, w')
       end.

Definition try_catch {A} (body : M A) (handler : JsError → M A) : M A :=
  λ w, match body w with
       | (inr a, w') => (inr a, w')
       | (inl e, w') => handler e w'
       end.

Definition log (e : Event) (w : World) : World :=
  {| registry := registry w; events := events w ++ [e] |}.

(** [DownloadManager.getInstance().method(...)]. *)
Definition downloadManager (call : DownloadManager.Call) : M unit :=
  λ w, (inr tt,
        log (Coordinator call)
            {| registry := DownloadManager.perform call (registry w);
               events := events w |}).

(** [await s3Client.send(command)] and [await getSignedUrl(...)]: the
    request is issued, then the answer is returned or thrown. *)
Definition await {A} (request : Event) (answer : JsError + A) : M A :=
  λ w, (answer, log request w).

End Effects.

Arguments World R : clear implicits.
Arguments M R A : clear implicits.

Notation "x <- c ;; k" := (bind c (λ x, k))
  (at level 100, c at next level, right associativity, only parsing).
Notation "c ;;; k" := (bind c (λ _, k))
  (at level 100, right associativity, only parsing).

(** ** Readable: the Node stream handed to the caller *)

Section Streams.
Context {R : Type} `{!DownloadManager.Ops R}.

(** A [Readable] built by [browserStreamToReadable], with the listeners
    registered on its [end] event. *)
Record Readable := {
  reader : ReadableStream;
  endListeners : list (M R unit);
}.

(** What one call of the adapter's [read()] pushes. *)
Inductive Push :=
| PushBuffer (chunk : Buffer)
| PushNull.

(** The body of [read()]: await [reader.read()], then push [null] when the
    result is [done] and a copy of the chunk otherwise.  A rejected
    [reader.read()] rejects [read()] itself; nothing is pushed. *)
Definition read (r : ReadableStream) : (JsError + Push) * ReadableStream :=
  match r with
  | Chunk value rest => (inr (PushBuffer value), rest)
  | Done => (inr PushNull, Done)
  | Rejects reason => (inl reason, Rejects reason)
  end.

(** The events a [Readable] can give its consumer. *)
Inductive StreamEvent :=
| data (chunk : Buffer)
| end_
| error (reason : JsError).

(** What Node's [Readable] does when the promise of [read()] rejects.  The
    adapter neither catches the rejection nor destroys the stream, so this is
    the runtime's choice: some versions leave the rejection unhandled and the
    stream silent, others destroy the stream with the error. *)
Inductive RejectedRead := LeavesUnhandled | DestroysStream.

Definition rejected_read (node : RejectedRead) (reason : JsError)
  : list StreamEvent :=
  match node with
  | LeavesUnhandled => []
  | DestroysStream => [error reason]
  end.

(** What [push(buffer)] gives the consumer: a [data] event, except for a
    buffer of length zero, which [Readable] does not queue (reading goes
    on). *)
Definition pushed (buffer : Buffer) : list StreamEvent :=
  match buffer with
  | [] => []
  | _ => [data buffer]
  end.

(** The consumer keeps the stream flowing, one [read()] after the other:
    each pushed buffer is delivered, the pushed [null] ends the stream, and
    a rejected [read()] is the last one.  The result tells whether [end] was
    reached. *)
Fixpoint flow (node : RejectedRead) (r : ReadableStream)
  : list StreamEvent * bool :=
  match r with
  | Chunk value rest =>
      let '(evs, ended) := flow node rest in (pushed value ++ evs, ended)
  | Done => ([end_], true)
  | Rejects reason => (rejected_read node reason, false)
  end.

(** [emit("end")]: the registered listeners run in order. *)
Definition emit_end (listeners : list (M R unit)) (w : World R) : World R :=
  foldl (λ w listener, snd (listener w)) w listeners.

(** The consumer drains the stream.  The [end] listeners run when, and only
    when, the stream ends; the consumer's events are returned. *)
Definition drain (node : RejectedRead) (stream : Readable)
  : M R (list StreamEvent) :=
  λ w, let '(evs, ended) := flow node (reader stream) in
       (inr evs, if ended then emit_end (endListeners stream) w else w).

Definition browserStreamToReadable (browserStream : ReadableStream)
  : Readable :=
  {| reader := browserStream; endListeners := [] |}.

(** [stream.on("end", listener)]. *)
Definition on_end (stream : Readable) (listener : M R unit) : Readable :=
  {| reader := reader stream;
     endListeners := endListeners stream ++ [listener] |}.

End Streams.

Arguments Readable R : clear implicits.


(** The reason of the [reader.read()] that rejects before the reader reports
    [done], if one does. *)
Fixpoint rejection (r : ReadableStream) : option JsError :=
  match r with
  | Chunk _ rest => rejection rest
  | Done => None
  | Rejects reason => Some reason
  end.

Fixpoint chunks (r : ReadableStream) : list Buffer :=
  match r with
  | Chunk value rest => value :: chunks rest
  | _ => []
  end.

(** The [data] events of a body: one for each chunk that is not empty. *)
Definition data_events (r : ReadableStream) : list StreamEvent :=
  flat_map pushed (chunks r).

(** ** Client *)

Module Client.

(** The fields of a client the protocol operations read. *)
Record t := {
  s3Client : option S3Client;
  settings : PluginSettings;
}.

Definition notInitialized : JsError := mkError "S3Client not initialized".

Section Methods.
Context {R : Type} `{!DownloadManager.Ops R}.
Context (config : Config).

Definition getObjectMetadata (this : t) (objectKey : string)
  : M R ListObjectVersionsCommandOutput :=
  match s3Client this with
  | None => throw notInitialized
  | Some client =>
      let command := {| lov_Bucket := bucketName (settings this);
                        lov_Prefix := objectKey |} in
      response <- await (SendListObjectVersions command)
                        (answerListObjectVersions client command) ;;
      ret response
  end.

Definition VERSION_LATEST : nat := 0.

Definition getLatestObjectVersion (this : t) (objectKey : string)
  : M R (option string) :=
  try_catch
    (response <- getObjectMetadata this objectKey ;;
     let exactFilteredVersion :=
       match Versions response with
       | Some versions =>
           filter (λ version, ov_Key version = Some objectKey) versions
       | None => []
       end in
     if Nat.ltb 0 (length exactFilteredVersion) then
       match exactFilteredVersion !! VERSION_LATEST with
       | Some version => ret (ov_VersionId version)
       | None => throw (mkError "TypeError")
       end
     else ret None)
    (λ error, throw error).

Definition getObject (this : t) (objectKey versionId : string)
  : M R (Readable R) :=
  match s3Client this with
  | None => throw notInitialized
  | Some client =>
      try_catch
        (downloadManager
           (DownloadManager.addNewDownload objectKey versionId) ;;;
         let command := {| go_Bucket := bucketName (settings this);
                           go_Key := objectKey |} in
         response <- await (SendGetObject command)
                           (answerGetObject client command) ;;
         match Body response with
         | Some body =>
             downloadManager
               (DownloadManager.setRunningState objectKey versionId) ;;;
             let stream := browserStreamToReadable body in
             let stream :=
               on_end stream
                 (downloadManager
                    (DownloadManager.setCompletedState
                       objectKey versionId)) in
             ret stream
         | None =>
             throw (mkError ("Failed to retrieve object " +:+ objectKey
                             +:+ " from S3"))
         end)
        (λ error,
           downloadManager
             (DownloadManager.setErrorState objectKey versionId) ;;;
           throw error)
  end.

Definition getSignedUrlForObject (this : t) (objectKey : string)
  : M R string :=
  match s3Client this with
  | None => throw notInitialized
  | Some client =>
      try_catch
        (let command := {| go_Bucket := bucketName (settings this);
                           go_Key := objectKey |} in
         let expiresIn := S3_SIGNED_LINK_EXPIRATION_TIME_SECONDS config in
         signedUrl <- await (GetSignedUrl command expiresIn)
                            (answerGetSignedUrl client command expiresIn) ;;
         ret signedUrl)
        (λ error, throw error)
  end.

End Methods.
End Client.

(** ** Vocabulary of the statements *)

Module ResolverSpec.
Import Resolver ImageResolver.

(** The sequence stored under a key once [l] has been appended to what the
    map held before. *)
Definition appended (before : option (list HTMLElement))
    (l : list HTMLElement) : option (list HTMLElement) :=
  match l with
  | [] => before
  | _ => Some (default [] before ++ l)
  end.

(** The entry of a key whose sequence is [l]: none when [l] is empty. *)
Definition entry (l : list HTMLElement) : option (list HTMLElement) :=
  match l with
  | [] => None
  | _ => Some l
  end.

(** The elements of [imgs] whose reference classifies as a direct link,
    respectively a signed link, with key [k]; in the order of [imgs]. *)
Definition direct_under (config : Config) (k : option string)
    (imgs : list HTMLElement) : list HTMLElement :=
  filter (λ e, classify config (src e) = DIRECT k) imgs.

Definition signed_under (config : Config) (k : option string)
    (imgs : list HTMLElement) : list HTMLElement :=
  filter (λ e, classify config (src e) = SIGNED k) imgs.

End ResolverSpec.

Module ClientSpec.
Import DownloadManager Client.

Section AnyManager.
Context {R : Type} `{!DownloadManager.Ops R}.

Definition getObjectCommand (this : t) (objectKey : string)
  : GetObjectCommand :=
  {| go_Bucket := bucketName (settings this); go_Key := objectKey |}.

Definition listCommand (this : t) (objectKey : string)
  : ListObjectVersionsCommand :=
  {| lov_Bucket := bucketName (settings this); lov_Prefix := objectKey |}.

(** The stream [getObject] returns for a response body. *)
Definition returned_stream (body : ReadableStream)
    (objectKey versionId : string) : Readable R :=
  on_end (browserStreamToReadable body)
         (downloadManager (setCompletedState objectKey versionId)).

(** The world after one more coordinator call or remote request. *)
Definition step (w : World R) (e : Event) : World R :=
  match e with
  | Coordinator call =>
      log e {| registry := perform call (registry w);
               events := events w |}
  | _ => log e w
  end.

(** The world after the coordinator calls and requests [es], in order. *)
Definition after (es : list Event) (w : World R) : World R :=
  foldl step w es.

End AnyManager.


End ClientSpec.

(** ** Concrete trees, stores and worlds *)

Module Scenario.
Import Client.

(** A rendered note: three images of the same object, one of them nested
    in a paragraph, next to a link. *)
Definition photo1 : HTMLElement := Element 1 "img" "s3://photo.png" [].
Definition photo2 : HTMLElement := Element 3 "img" "s3://photo.png" [].
Definition photo3 : HTMLElement := Element 5 "img" "s3://photo.png" [].
Definition note : HTMLElement :=
  Element 0 "div" ""
    [photo1; Element 2 "p" "" [photo2; Element 4 "a" "" []]; photo3].

(** A note without any image. *)
Definition plain_note : HTMLElement :=
  Element 0 "div" "" [Element 1 "p" "" [Element 2 "a" "" []]].

(** An image whose reference is the direct marker alone. *)
Definition marker_only : HTMLElement := Element 1 "img" "s3:" [].
Definition marker_only_note : HTMLElement :=
  Element 0 "div" "" [marker_only].

Definition chunk1 : Buffer := [Byte.x89; Byte.x50].
Definition chunk2 : Buffer := [Byte.x4e; Byte.x47].

Definition version_a_b : ObjectVersion :=
  {| ov_Key := Some "a/b"; ov_VersionId := Some "v9" |}.
Definition version_a_2 : ObjectVersion :=
  {| ov_Key := Some "a"; ov_VersionId := Some "v2" |}.
Definition version_a_1 : ObjectVersion :=
  {| ov_Key := Some "a"; ov_VersionId := Some "v1" |}.

(** A store that lists three versions under the prefix [a] and serves a
    body of two chunks. *)
Definition healthy_store : S3Client := {|
  answerListObjectVersions _ :=
    inr {| Versions := Some [version_a_b; version_a_2; version_a_1] |};
  answerGetObject _ :=
    inr {| Body := Some (Chunk chunk1 (Chunk chunk2 Done)) |};
  answerGetSignedUrl _ _ := inr "https://bucket.example/a?signature";
|}.

Definition timeout : JsError := mkError "connect ETIMEDOUT".

(** A store whose requests all fail. *)
Definition failing_store : S3Client := {|
  answerListObjectVersions _ := inl timeout;
  answerGetObject _ := inl timeout;
  answerGetSignedUrl _ _ := inl timeout;
|}.

Definition network_error : JsError := mkError "network error".

(** A store whose body breaks after the first chunk. *)
Definition broken_body_store : S3Client := {|
  answerListObjectVersions _ := inl timeout;
  answerGetObject _ :=
    inr {| Body := Some (Chunk chunk1 (Rejects network_error)) |};
  answerGetSignedUrl _ _ := inl timeout;
|}.

Definition client_of (store : option S3Client) : t :=
  {| s3Client := store; settings := {| bucketName := "notes" |} |}.

Definition world_of (r : Coordinator.Registry)
  : World Coordinator.Registry :=
  {| registry := r; events := [] |}.

End Scenario.

(** ** Occurrences of the splitter *)

(** [sep] begins at some position of [s]. *)
Fixpoint occurs (sep s : string) : bool :=
  String.prefix sep s ||
  match s with
  | EmptyString => false
  | String _ s' => occurs sep s'
  end.

(** [sep] begins at some position of [a ++ rest] that lies inside [a]. *)
Fixpoint begins_within (sep a rest : string) : bool :=
  match a with
  | EmptyString => false
  | String _ a' => String.prefix sep (a +:+ rest) || begins_within sep a' rest
  end.

Module ClassifierSpec.
Import Resolver ImageResolver.

(** The kind [visit] decides for a reference whose first part is [first] and
    whose second part is [key]: the direct marker is tried first. *)
Definition kind_of_first_part (config : Config) (first : string)
    (key : option string) : Kind :=
  if decide (first = S3_LINK_PREFIX config) then DIRECT key
  else if decide (first = S3_SIGNED_LINK_PREFIX config) then SIGNED key
  else UNRELATED.

(** Where the element [e] is found in the returned maps, by kind: under
    the key of its kind in the map of its kind, under no other key of that
    map and nowhere in the other map; nowhere at all when unrelated. *)
Definition filed_as (out : Resolved) (e : HTMLElement) (kind : Kind) : Prop :=
  match kind with
  | DIRECT k =>
      (∃ l, r_objectKeys out !! k = Some l ∧ e ∈ l) ∧
      (∀ k' l, r_objectKeys out !! k' = Some l → e ∈ l → k' = k) ∧
      (∀ k' l, r_signObjectKeys out !! k' = Some l → e ∉ l)
  | SIGNED k =>
      (∃ l, r_signObjectKeys out !! k = Some l ∧ e ∈ l) ∧
      (∀ k' l, r_signObjectKeys out !! k' = Some l → e ∈ l → k' = k) ∧
      (∀ k' l, r_objectKeys out !! k' = Some l → e ∉ l)
  | UNRELATED =>
      (∀ k' l, r_objectKeys out !! k' = Some l → e ∉ l) ∧
      (∀ k' l, r_signObjectKeys out !! k' = Some l → e ∉ l)
  end.

(** The number of tree nodes of an element. *)
Fixpoint size (e : HTMLElement) : nat :=
  match e with
  | Element _ _ _ cs => S (list_sum (map size cs))
  end.

End ClassifierSpec.

(** ** Requests among the events *)

Definition is_request (e : Event) : bool :=
  match e with
  | Coordinator _ => false
  | _ => true
  end.

(** The remote requests among the events, in order. *)
Definition requests (es : list Event) : list Event :=
  filter (λ e, is_request e = true) es.

Module ClientOutcomeSpec.
Section AnyManager.
Context {R : Type} `{!DownloadManager.Ops R}.

(** What a caller gets back, without the listeners: the reader of the
    returned stream, or the error thrown. *)
Definition delivered (result : JsError + Readable R)
  : JsError + ReadableStream :=
  match result with
  | inl e => inl e
  | inr stream => inr (reader stream)
  end.

End AnyManager.
End ClientOutcomeSpec.

(** ** Creating the S3 client *)

Module AwsCredential.
Record t := { accessKeyId : string; secretAccessKey : string }.
End AwsCredential.

(** The argument of [new S3Client(...)]. *)
Record S3ClientConfig := {
  cc_endpoint : string;
  cc_region : string;
  cc_credentials : AwsCredential.t;
}.

(** The settings with the fields that creating the client reads; [protocol]
    holds the fields the protocol operations read. *)
Module Settings.
Record t := {
  profile : string;
  endpoint : string;
  region : string;
  accessKeyId : string;
  secretAccessKey : string;
  protocol : PluginSettings;
}.

Definition with_profile (p : string) (s : t) : t :=
  {| profile := p; endpoint := endpoint s; region := region s;
     accessKeyId := accessKeyId s; secretAccessKey := secretAccessKey s;
     protocol := protocol s |}.
End Settings.

Module Creation.

(** The client object: [None] stands for both [null] and the [undefined] of
    a field never assigned; either makes [!this.s3Client] true. *)
Record Object := {
  s3Client : option S3Client;
  settings : Settings.t;
}.

(** The object as the protocol operations see it. *)
Definition protocol_view (this : Object) : Client.t :=
  {| Client.s3Client := s3Client this;
     Client.settings := Settings.protocol (settings this) |}.

(** What lies outside the sources at hand: the readiness test of the
    settings module, the name that stands for no profile, the credential
    provider's and the plugin's answers, and what [new S3Client(config)]
    gives: a client, or the error the constructor throws (as it does for a
    configuration without a region). *)
Record Environment := {
  isPluginReadyState : Settings.t → bool;
  AWS_PROFILE_NAME_NONE : string;
  answerGetAwsCredentials : string → JsError + option AwsCredential.t;
  answerSaveSettings : JsError + unit;
  newS3Client : S3ClientConfig → JsError + S3Client;
}.

(** Calls on the collaborators, in order. *)
Inductive Effect :=
| getAwsCredentials (profile : string)
| setState_ERROR
| saveSettings
| sendNotification (message : string).

Record State := {
  this : Object;
  effects : list Effect;
}.

Definition perform_effect (e : Effect) (st : State) : State :=
  {| this := this st; effects := effects st ++ [e] |}.

Definition set_s3Client (client : option S3Client) (st : State) : State :=
  {| this := {| s3Client := client; settings := settings (this st) |};
     effects := effects st |}.

Definition set_settings (s : Settings.t) (st : State) : State :=
  {| this := {| s3Client := s3Client (this st); settings := s |};
     effects := effects st |}.

(** An asynchronous function that has been called: it has run to its end,
    its promise has rejected, or it waits at an [await], having left the
    state [st]; [resume] continues it from the state it finds when it is
    woken. *)
Inductive Async :=
| Resolved (st : State)
| Rejected (reason : JsError) (st : State)
| Awaiting (st : State) (resume : State → Async).

(** [await promise]: suspend, then go on with the value or throw. *)
Definition await_answer {A} (answer : JsError + A) (st : State)
    (k : A → State → Async) : Async :=
  Awaiting st (λ st', match answer with
                      | inl reason => Rejected reason st'
                      | inr a => k a st'
                      end).

(** The state the caller sees when the call returns its promise. *)
Definition on_return (a : Async) : State :=
  match a with
  | Resolved st | Rejected _ st | Awaiting st _ => st
  end.

(** The state once the function has finished, nothing else having run in
    between. *)
Fixpoint settled (a : Async) : State :=
  match a with
  | Resolved st | Rejected _ st => st
  | Awaiting st resume => settled (resume st)
  end.

(** The reason the function's promise rejects with, if it does. *)
Fixpoint rejects_with (a : Async) : option JsError :=
  match a with
  | Resolved _ => None
  | Rejected reason _ => Some reason
  | Awaiting st resume => rejects_with (resume st)
  end.

Definition credentials_missing : string :=
  "Failed to retrieve credentials for profile - Please check Settings".

Section WithEnvironment.
Context (env : Environment).

Definition constructor (s : Settings.t) : Object :=
  {| s3Client := None; settings := s |}.

(** [this.s3Client = new S3Client(config)]: when the constructor throws,
    nothing is assigned and the promise of the function rejects. *)
Definition assign_new_client (config : S3ClientConfig) (st : State)
  : Async :=
  match newS3Client env config with
  | inr client => Resolved (set_s3Client (Some client) st)
  | inl reason => Rejected reason st
  end.

Definition createS3Client (st : State) : Async :=
  if isPluginReadyState env (settings (this st)) then
    if bool_decide (Settings.profile (settings (this st)) ≠ "") &&
       bool_decide (Settings.profile (settings (this st))
                    ≠ AWS_PROFILE_NAME_NONE env) then
      let profile := Settings.profile (settings (this st)) in
      let st := perform_effect (getAwsCredentials profile) st in
      await_answer (answerGetAwsCredentials env profile) st
        (λ credentials st,
           match credentials with
           | Some credentials =>
               assign_new_client
                 {| cc_endpoint := Settings.endpoint (settings (this st));
                    cc_region := Settings.region (settings (this st));
                    cc_credentials :=
                      {| AwsCredential.accessKeyId :=
                           AwsCredential.accessKeyId credentials;
                         AwsCredential.secretAccessKey :=
                           AwsCredential.secretAccessKey credentials |} |}
                 st
           | None =>
               let st := perform_effect setState_ERROR st in
               let st :=
                 set_settings (Settings.with_profile "" (settings (this st)))
                   st in
               let st := perform_effect saveSettings st in
               await_answer (answerSaveSettings env) st
                 (λ _ st,
                    let st :=
                      perform_effect (sendNotification credentials_missing)
                        st in
                    Resolved (set_s3Client None st))
           end)
    else
      assign_new_client
        {| cc_endpoint := Settings.endpoint (settings (this st));
           cc_region := Settings.region (settings (this st));
           cc_credentials :=
             {| AwsCredential.accessKeyId :=
                  Settings.accessKeyId (settings (this st));
                AwsCredential.secretAccessKey :=
                  Settings.secretAccessKey (settings (this st)) |} |}
        st
  else Resolved (set_s3Client None st).

(** [initializeS3Client] does not await the promise of [createS3Client]. *)
Definition initializeS3Client (s : Settings.t) (st : State) : Async :=
  let st := set_settings s st in
  createS3Client st.

End WithEnvironment.
End Creation.

Module CreationSpec.
Import Creation.

(** A profile is configured: neither empty nor the name for no profile. *)
Definition profile_set (env : Environment) (s : Settings.t) : bool :=
  bool_decide (Settings.profile s ≠ "") &&
  bool_decide (Settings.profile s ≠ AWS_PROFILE_NAME_NONE env).

(** The configuration built from the static keys of the settings. *)
Definition static_config (s : Settings.t) : S3ClientConfig :=
  {| cc_endpoint := Settings.endpoint s;
     cc_region := Settings.region s;
     cc_credentials :=
       {| AwsCredential.accessKeyId := Settings.accessKeyId s;
          AwsCredential.secretAccessKey := Settings.secretAccessKey s |} |}.

(** The configuration built from credentials of the provider. *)
Definition profile_config (s : Settings.t) (c : AwsCredential.t)
  : S3ClientConfig :=
  {| cc_endpoint := Settings.endpoint s;
     cc_region := Settings.region s;
     cc_credentials :=
       {| AwsCredential.accessKeyId := AwsCredential.accessKeyId c;
          AwsCredential.secretAccessKey := AwsCredential.secretAccessKey c |}
  |}.

(** The suspended function [a] is woken in the state [st]. *)
Definition woken_in (a : Async) (st : State) : Async :=
  match a with
  | Awaiting _ resume => resume st
  | finished => finished
  end.

(** The provider is asked for the configured profile and finds nothing. *)
Definition lookup_finds_nothing (env : Environment) (s : Settings.t) : Prop :=
  isPluginReadyState env s = true ∧
  profile_set env s = true ∧
  answerGetAwsCredentials env (Settings.profile s) = inr None.

(** The branch a run of [createS3Client] takes with the settings [s]. *)
Inductive Branch (env : Environment) (s : Settings.t) : Prop :=
| not_ready :
    isPluginReadyState env s = false → Branch env s
| static_built client :
    isPluginReadyState env s = true → profile_set env s = false →
    newS3Client env (static_config s) = inr client → Branch env s
| static_throws reason :
    isPluginReadyState env s = true → profile_set env s = false →
    newS3Client env (static_config s) = inl reason → Branch env s
| found_built c client :
    isPluginReadyState env s = true → profile_set env s = true →
    answerGetAwsCredentials env (Settings.profile s) = inr (Some c) →
    newS3Client env (profile_config s c) = inr client → Branch env s
| found_throws c reason :
    isPluginReadyState env s = true → profile_set env s = true →
    answerGetAwsCredentials env (Settings.profile s) = inr (Some c) →
    newS3Client env (profile_config s c) = inl reason → Branch env s
| provider_rejects reason :
    isPluginReadyState env s = true → profile_set env s = true →
    answerGetAwsCredentials env (Settings.profile s) = inl reason →
    Branch env s
| nothing_found_saved :
    lookup_finds_nothing env s → answerSaveSettings env = inr () →
    Branch env s
| nothing_found_save_rejects reason :
    lookup_finds_nothing env s → answerSaveSettings env = inl reason →
    Branch env s.

End CreationSpec.

(** ** More concrete inputs *)

Module Examples.
Import Scenario Creation.

(** An image whose object key contains the splitter. *)
Definition deep_photo : HTMLElement :=
  Element 1 "img" "s3://albums//2024.png" [].
Definition deep_note : HTMLElement := Element 0 "div" "" [deep_photo].

Definition work_credentials : AwsCredential.t :=
  {| AwsCredential.accessKeyId := "AKIAWORK";
     AwsCredential.secretAccessKey := "work-secret" |}.

(** Collaborators for the examples: settings are ready when they name a
    bucket; the provider knows the profile [work], rejects for [vault] and
    finds nothing else; saving succeeds; the constructor throws without a
    region. *)
Definition office : Environment := {|
  isPluginReadyState s :=
    bool_decide (bucketName (Settings.protocol s) ≠ "");
  AWS_PROFILE_NAME_NONE := "none";
  answerGetAwsCredentials p :=
    if decide (p = "work") then inr (Some work_credentials)
    else if decide (p = "vault") then inl timeout
    else inr None;
  answerSaveSettings := inr ();
  newS3Client cfg :=
    if decide (cc_region cfg = "") then inl (mkError "Region is missing")
    else if decide (AwsCredential.accessKeyId (cc_credentials cfg)
                    = "AKIAWORK")
         then inr healthy_store else inr failing_store;
|}.

Definition settings_with (p : string) : Settings.t :=
  {| Settings.profile := p;
     Settings.endpoint := "https://s3.example";
     Settings.region := "eu-central-1";
     Settings.accessKeyId := "AKIASTATIC";
     Settings.secretAccessKey := "static-secret";
     Settings.protocol := {| bucketName := "notes" |} |}.

(** Settings without a region, and a client that was working before they
    came. *)
Definition regionless : Settings.t :=
  {| Settings.profile := "";
     Settings.endpoint := "https://s3.example";
     Settings.region := "";
     Settings.accessKeyId := "AKIASTATIC";
     Settings.secretAccessKey := "static-secret";
     Settings.protocol := {| bucketName := "notes" |} |}.


(** A client just constructed, nothing having been called yet. *)
Definition constructed (s : Settings.t) : State :=
  {| this := constructor s; effects := [] |}.

End Examples.

(** * Properties *)

(** ** Filtering a list *)

Lemma filter_all {A} (P : A → Prop) `{!∀ x, Decision (P x)} (l : list A) :
  Forall P l → filter P l = l.
Proof.
  induction 1 as [|x l Hx _ IH]; [done|].
  by rewrite filter_cons_True, IH.
Qed.

Lemma filter_none {A} (P : A → Prop) `{!∀ x, Decision (P x)} (l : list A) :
  Forall (λ x, ¬ P x) l → filter P l = [].
Proof.
  induction 1 as [|x l Hx _ IH]; [done|].
  by rewrite filter_cons_False.
Qed.

(** ** Properties of the image resolver *)

Module ImageResolverFacts.
Import Resolver ImageResolver ResolverSpec.

Lemma addElement_lookup (key : option string) (element : HTMLElement)
    (m : KeyToElementsMap) (k : option string) :
  addElement key element m !! k
  = if decide (k = key) then Some (default [] (m !! key) ++ [element])
    else m !! k.
Proof.
  unfold addElement. case_decide as Hk.
  - subst k. destruct (m !! key); by rewrite lookup_insert_eq.
  - destruct (m !! key); by rewrite lookup_insert_ne.
Qed.

Section WithConfig.
Context (config : Config).

Lemma visit_classify (this : t) (e : HTMLElement) :
  visit config this e
  = match classify config (src e) with
    | DIRECT key => addObjectKey key e this
    | SIGNED key => addSignObjectKey key e this
    | UNRELATED => this
    end.
Proof. unfold visit, classify. by repeat case_decide. Qed.

Lemma visit_objectKeys (this : t) (e : HTMLElement) (k : option string) :
  objectKeys (visit config this e) !! k
  = appended (objectKeys this !! k) (direct_under config k [e]).
Proof.
  rewrite visit_classify. unfold direct_under.
  destruct (classify config (src e)) as [key|key|] eqn:Hc; simpl.
  - rewrite addElement_lookup, filter_cons, filter_nil, Hc.
    repeat case_decide; simplify_eq; done.
  - rewrite filter_cons, filter_nil, Hc. by case_decide.
  - rewrite filter_cons, filter_nil, Hc. by case_decide.
Qed.

Lemma visit_signObjectKeys (this : t) (e : HTMLElement) (k : option string) :
  signObjectKeys (visit config this e) !! k
  = appended (signObjectKeys this !! k) (signed_under config k [e]).
Proof.
  rewrite visit_classify. unfold signed_under.
  destruct (classify config (src e)) as [key|key|] eqn:Hc; simpl.
  - rewrite filter_cons, filter_nil, Hc. by case_decide.
  - rewrite addElement_lookup, filter_cons, filter_nil, Hc.
    repeat case_decide; simplify_eq; done.
  - rewrite filter_cons, filter_nil, Hc. by case_decide.
Qed.

Lemma appended_app (before : option (list HTMLElement)) l1 l2 :
  appended (appended before l1) l2 = appended before (l1 ++ l2).
Proof.
  destruct l1 as [|x l1]; [done|].
  destruct l2 as [|y l2]; simpl.
  - by rewrite app_nil_r.
  - by rewrite <- app_assoc.
Qed.

(** The loop, by induction on the elements still to visit. *)
Lemma foldl_visit_objectKeys (imgs : list HTMLElement) (this : t)
    (k : option string) :
  objectKeys (foldl (visit config) this imgs) !! k
  = appended (objectKeys this !! k) (direct_under config k imgs).
Proof.
  revert this. induction imgs as [|e imgs IH]; intros this; [done|].
  simpl. rewrite IH, visit_objectKeys, appended_app.
  unfold direct_under. by rewrite <- filter_app.
Qed.

Lemma foldl_visit_signObjectKeys (imgs : list HTMLElement) (this : t)
    (k : option string) :
  signObjectKeys (foldl (visit config) this imgs) !! k
  = appended (signObjectKeys this !! k) (signed_under config k imgs).
Proof.
  revert this. induction imgs as [|e imgs IH]; intros this; [done|].
  simpl. rewrite IH, visit_signObjectKeys, appended_app.
  unfold signed_under. by rewrite <- filter_app.
Qed.

(** What a call returns, entry by entry: under each key, the image
    elements of the tree that classify to that key, in document order. *)
Lemma resolveHtmlElement_entries (this : t) (element : HTMLElement)
    (k : option string) :
  let out := fst (resolveHtmlElement config this element) in
  let imgs := querySelectorAll element targetElement in
  r_objectKeys out !! k = appended None (direct_under config k imgs) ∧
  r_signObjectKeys out !! k = appended None (signed_under config k imgs).
Proof.
  unfold resolveHtmlElement.
  destruct (querySelectorAll element targetElement) as [|e imgs] eqn:Hq.
  - simpl. by rewrite !lookup_empty.
  - cbn [length Nat.eqb fst r_objectKeys r_signObjectKeys].
    rewrite foldl_visit_objectKeys, foldl_visit_signObjectKeys.
    simpl. by rewrite !lookup_empty.
Qed.

End WithConfig.
End ImageResolverFacts.

Module ImageResolverClaims.
Import Resolver ImageResolver ResolverSpec ImageResolverFacts.
Import Scenario Examples.

Lemma appended_None (l : list HTMLElement) : appended None l = entry l.
Proof. by destruct l. Qed.

Lemma entry_Some (l l' : list HTMLElement) :
  entry l = Some l' → l' = l ∧ l ≠ [].
Proof. destruct l; simpl; [done|]. by intros [= <-]. Qed.

(** C7: for every tree, each entry of the two returned maps is the
    document-ordered subsequence of the tree's image elements whose
    reference classifies to that map and key; so an element appears in at
    most one map and under one key, every qualifying element appears, and
    N images that all reference the same key give one entry holding exactly
    those N elements in document order. *)
Theorem resolveHtmlElement_partition (config : Config) (this : t)
    (element : HTMLElement) :
  let out := fst (resolveHtmlElement config this element) in
  let imgs := querySelectorAll element targetElement in
  (∀ k, r_objectKeys out !! k = entry (direct_under config k imgs)) ∧
  (∀ k, r_signObjectKeys out !! k = entry (signed_under config k imgs)) ∧
  (∀ e k l, r_objectKeys out !! k = Some l → e ∈ l →
     (∀ k' l', r_signObjectKeys out !! k' = Some l' → e ∉ l') ∧
     (∀ k' l', r_objectKeys out !! k' = Some l' → e ∈ l' → k' = k)) ∧
  (∀ e k l, r_signObjectKeys out !! k = Some l → e ∈ l →
     (∀ k' l', r_objectKeys out !! k' = Some l' → e ∉ l') ∧
     (∀ k' l', r_signObjectKeys out !! k' = Some l' → e ∈ l' → k' = k)) ∧
  (∀ e k, e ∈ imgs → classify config (src e) = DIRECT k →
     ∃ l, r_objectKeys out !! k = Some l ∧ e ∈ l) ∧
  (∀ e k, e ∈ imgs → classify config (src e) = SIGNED k →
     ∃ l, r_signObjectKeys out !! k = Some l ∧ e ∈ l) ∧
  (∀ k, imgs ≠ [] →
     Forall (λ e, classify config (src e) = DIRECT k) imgs →
     r_objectKeys out = {[k := imgs]} ∧ r_signObjectKeys out = ∅) ∧
  (∀ k, imgs ≠ [] →
     Forall (λ e, classify config (src e) = SIGNED k) imgs →
     r_objectKeys out = ∅ ∧ r_signObjectKeys out = {[k := imgs]}).
Proof.
  intros out imgs.
  assert (Hd : ∀ k, r_objectKeys out !! k
                    = entry (direct_under config k imgs)).
  { intros k. rewrite <- appended_None.
    apply (resolveHtmlElement_entries config this element k). }
  assert (Hs : ∀ k, r_signObjectKeys out !! k
                    = entry (signed_under config k imgs)).
  { intros k. rewrite <- appended_None.
    apply (resolveHtmlElement_entries config this element k). }
  assert (Hin_d : ∀ e k l, r_objectKeys out !! k = Some l → e ∈ l →
                           classify config (src e) = DIRECT k).
  { intros e k l Hl He. rewrite Hd in Hl.
    apply entry_Some in Hl as [-> _].
    by apply list_elem_of_filter in He as [? _]. }
  assert (Hin_s : ∀ e k l, r_signObjectKeys out !! k = Some l → e ∈ l →
                           classify config (src e) = SIGNED k).
  { intros e k l Hl He. rewrite Hs in Hl.
    apply entry_Some in Hl as [-> _].
    by apply list_elem_of_filter in He as [? _]. }
  split_and!; try done.
  - intros e k l Hl He. split.
    + intros k' l' Hl' He'.
      pose proof (Hin_d _ _ _ Hl He). pose proof (Hin_s _ _ _ Hl' He').
      congruence.
    + intros k' l' Hl' He'.
      pose proof (Hin_d _ _ _ Hl He). pose proof (Hin_d _ _ _ Hl' He').
      congruence.
  - intros e k l Hl He. split.
    + intros k' l' Hl' He'.
      pose proof (Hin_s _ _ _ Hl He). pose proof (Hin_d _ _ _ Hl' He').
      congruence.
    + intros k' l' Hl' He'.
      pose proof (Hin_s _ _ _ Hl He). pose proof (Hin_s _ _ _ Hl' He').
      congruence.
  - intros e k He Hc.
    assert (He' : e ∈ direct_under config k imgs)
      by (apply list_elem_of_filter; done).
    exists (direct_under config k imgs). split; [|done].
    rewrite Hd. destruct (direct_under config k imgs); [|done].
    by apply not_elem_of_nil in He'.
  - intros e k He Hc.
    assert (He' : e ∈ signed_under config k imgs)
      by (apply list_elem_of_filter; done).
    exists (signed_under config k imgs). split; [|done].
    rewrite Hs. destruct (signed_under config k imgs); [|done].
    by apply not_elem_of_nil in He'.
  - intros k Hne Hall. split; apply map_eq; intros k'.
    + rewrite Hd. destruct (decide (k' = k)) as [->|Hk].
      * rewrite lookup_singleton_eq. unfold direct_under.
        rewrite filter_all by done. by destruct imgs.
      * rewrite lookup_singleton_ne by done. unfold direct_under.
        rewrite filter_none; [done|].
        eapply Forall_impl; [exact Hall|]. simpl. congruence.
    + rewrite Hs, lookup_empty. unfold signed_under.
      rewrite filter_none; [done|].
      eapply Forall_impl; [exact Hall|]. simpl. congruence.
  - intros k Hne Hall. split; apply map_eq; intros k'.
    + rewrite Hd, lookup_empty. unfold direct_under.
      rewrite filter_none; [done|].
      eapply Forall_impl; [exact Hall|]. simpl. congruence.
    + rewrite Hs. destruct (decide (k' = k)) as [->|Hk].
      * rewrite lookup_singleton_eq. unfold signed_under.
        rewrite filter_all by done. by destruct imgs.
      * rewrite lookup_singleton_ne by done. unfold signed_under.
        rewrite filter_none; [done|].
        eapply Forall_impl; [exact Hall|]. simpl. congruence.
Qed.

Lemma resolveHtmlElement_partition_witness :
  r_objectKeys (fst (resolveHtmlElement spec_config (mk ∅ ∅) note))
  = {[Some "photo.png" := [photo1; photo2; photo3]]} ∧
  r_signObjectKeys (fst (resolveHtmlElement spec_config (mk ∅ ∅) note)) = ∅.
Proof.
  destruct (resolveHtmlElement_partition spec_config (mk ∅ ∅) note)
    as (_ & _ & _ & _ & _ & _ & Hsame & _).
  apply (Hsame (Some "photo.png")).
  - vm_compute. discriminate.
  - vm_compute. repeat constructor.
Defined.

(** C8: a call starts from cleared maps, so what it returns, and what the
    resolver holds afterwards, are the entries of the current tree alone:
    the same from every earlier state of the resolver, with nothing left
    under a key the tree does not reference; on a tree without image
    elements both maps are empty. *)
Theorem resolveHtmlElement_not_cumulative (config : Config) (this : t)
    (element : HTMLElement) :
  let result := resolveHtmlElement config this element in
  let imgs := querySelectorAll element targetElement in
  (∀ before : t, resolveHtmlElement config before element = result) ∧
  (∀ earlier,
     resolveHtmlElement config
       (snd (resolveHtmlElement config this earlier)) element
     = result) ∧
  objectKeys (snd result) = r_objectKeys (fst result) ∧
  signObjectKeys (snd result) = r_signObjectKeys (fst result) ∧
  (∀ k, r_objectKeys (fst result) !! k = entry (direct_under config k imgs)) ∧
  (∀ k, r_signObjectKeys (fst result) !! k
        = entry (signed_under config k imgs)) ∧
  (∀ k, direct_under config k imgs = [] →
        r_objectKeys (fst result) !! k = None ∧
        objectKeys (snd result) !! k = None) ∧
  (∀ k, signed_under config k imgs = [] →
        r_signObjectKeys (fst result) !! k = None ∧
        signObjectKeys (snd result) !! k = None) ∧
  (imgs = [] →
   r_objectKeys (fst result) = ∅ ∧ r_signObjectKeys (fst result) = ∅ ∧
   objectKeys (snd result) = ∅ ∧ signObjectKeys (snd result) = ∅).
Proof.
  intros result imgs.
  assert (Hsame : ∀ before : t,
            resolveHtmlElement config before element = result) by done.
  assert (Hown : objectKeys (snd result) = r_objectKeys (fst result) ∧
                 signObjectKeys (snd result) = r_signObjectKeys (fst result)).
  { subst result. unfold resolveHtmlElement.
    by destruct (Nat.eqb _ 0). }
  assert (Hd : ∀ k, r_objectKeys (fst result) !! k
                    = entry (direct_under config k imgs)).
  { intros k. rewrite <- appended_None.
    apply (resolveHtmlElement_entries config this element k). }
  assert (Hs : ∀ k, r_signObjectKeys (fst result) !! k
                    = entry (signed_under config k imgs)).
  { intros k. rewrite <- appended_None.
    apply (resolveHtmlElement_entries config this element k). }
  destruct Hown as [Hown_d Hown_s].
  split; [exact Hsame|]. split; [intros earlier; apply Hsame|].
  split; [exact Hown_d|]. split; [exact Hown_s|].
  split; [exact Hd|]. split; [exact Hs|].
  split; [|split].
  - intros k Hnone. by rewrite Hown_d, Hd, Hnone.
  - intros k Hnone. by rewrite Hown_s, Hs, Hnone.
  - intros Hq. rewrite Hown_d, Hown_s.
    assert (r_objectKeys (fst result) = ∅) as ->.
    { apply map_eq. intros k. rewrite lookup_empty, Hd. subst imgs.
      by rewrite Hq. }
    assert (r_signObjectKeys (fst result) = ∅) as ->.
    { apply map_eq. intros k. rewrite lookup_empty, Hs. subst imgs.
      by rewrite Hq. }
    done.
Qed.

(** A resolver that has resolved [note] and then resolves [deep_note]: the
    photo of the second note is there, the key of the first is gone, in the
    result and in the resolver; and after [plain_note] nothing is left. *)
Lemma resolveHtmlElement_not_cumulative_witness :
  let used := snd (resolveHtmlElement spec_config (mk ∅ ∅) note) in
  let result := resolveHtmlElement spec_config used deep_note in
  let plain := resolveHtmlElement spec_config used plain_note in
  objectKeys used !! Some "photo.png" = Some [photo1; photo2; photo3] ∧
  r_objectKeys (fst result) !! Some "albums" = Some [deep_photo] ∧
  (r_objectKeys (fst result) !! Some "photo.png" = None ∧
   objectKeys (snd result) !! Some "photo.png" = None) ∧
  (r_objectKeys (fst plain) = ∅ ∧ r_signObjectKeys (fst plain) = ∅ ∧
   objectKeys (snd plain) = ∅ ∧ signObjectKeys (snd plain) = ∅).
Proof.
  intros used result plain.
  destruct (resolveHtmlElement_not_cumulative spec_config used deep_note)
    as (_ & _ & _ & _ & Hentries & _ & Hgone & _).
  destruct (resolveHtmlElement_not_cumulative spec_config used plain_note)
    as (_ & _ & _ & _ & _ & _ & _ & _ & Hnone).
  split; [reflexivity|]. split; [apply (Hentries (Some "albums"))|]. split.
  - apply (Hgone (Some "photo.png")). reflexivity.
  - apply Hnone. reflexivity.
Defined.

(** C6, at the failing input: the reference [s3:] splits into the single
    part [s3:], the code reads it as a direct link with the key
    [undefined], and the element is added to the direct map. *)
Theorem marker_only_reference_is_added :
  split (src marker_only) (S3_LINK_SPLITTER spec_config) = ["s3:"] ∧
  classify spec_config (src marker_only) = DIRECT None ∧
  r_objectKeys
    (fst (resolveHtmlElement spec_config (mk ∅ ∅) marker_only_note))
  = {[None := [marker_only]]}.
Proof. split_and!; reflexivity. Qed.

(** The same for every configuration: a reference whose only part is a
    marker is not read as unrelated. *)
Lemma single_part_marker (config : Config) (reference : string) :
  split reference (S3_LINK_SPLITTER config) = [S3_LINK_PREFIX config] →
  classify config reference = DIRECT None.
Proof. intros H. unfold classify. rewrite H. simpl. by case_decide. Qed.

(** A reference with fewer than two parts whose part is neither marker is
    unrelated, and visiting its element changes neither map. *)
Lemma single_part_unrelated (config : Config) (this : t)
    (e : HTMLElement) :
  length (split (src e) (S3_LINK_SPLITTER config)) < 2 →
  split (src e) (S3_LINK_SPLITTER config) !! 0
    ≠ Some (S3_LINK_PREFIX config) →
  split (src e) (S3_LINK_SPLITTER config) !! 0
    ≠ Some (S3_SIGNED_LINK_PREFIX config) →
  classify config (src e) = UNRELATED ∧ visit config this e = this.
Proof.
  intros _ Hd Hs. rewrite visit_classify. unfold classify.
  unfold s3LinkLeftPart. by repeat case_decide.
Qed.

End ImageResolverClaims.

(** ** Properties of the client, for every download manager *)

Module ClientFacts.
Import DownloadManager Client ClientSpec.

(** Runs the method's monadic steps up to the first answer of the store. *)
Ltac run_method :=
  unfold try_catch, bind, await, downloadManager, ret, throw;
  cbn beta iota.

Section AnyManager.
Context {R : Type} `{!DownloadManager.Ops R}.

Lemma after_cons (e : Event) (es : list Event) (w : World R) :
  after (e :: es) w = after es (step w e).
Proof. reflexivity. Qed.

Lemma after_events (es : list Event) (w : World R) :
  events (after es w) = events w ++ es.
Proof.
  revert w. induction es as [|e es IH]; intros w.
  - simpl. by rewrite app_nil_r.
  - rewrite after_cons, IH.
    destruct e; simpl; by rewrite <- app_assoc.
Qed.


Lemma getLatestObjectVersion_listed (this : t) (client : S3Client)
    (objectKey : string) (response : ListObjectVersionsCommandOutput)
    (w : World R) :
  s3Client this = Some client →
  answerListObjectVersions client (listCommand this objectKey)
    = inr response →
  getLatestObjectVersion this objectKey w
  = (inr (head (filter (λ version, ov_Key version = Some objectKey)
                       (default [] (Versions response)))
          ≫= ov_VersionId),
     after [SendListObjectVersions (listCommand this objectKey)] w).
Proof.
  intros Hc Ha.
  unfold getLatestObjectVersion, getObjectMetadata.
  rewrite Hc. fold (listCommand this objectKey). run_method.
  rewrite Ha. cbn beta iota.
  destruct (Versions response) as [versions|]; simpl; [|done].
  by destruct (filter _ versions).
Qed.

Lemma getObject_body (this : t) (client : S3Client)
    (objectKey versionId : string) (response : GetObjectCommandOutput)
    (body : ReadableStream) (w : World R) :
  s3Client this = Some client →
  answerGetObject client (getObjectCommand this objectKey)
    = inr response →
  Body response = Some body →
  getObject this objectKey versionId w
  = (inr (returned_stream body objectKey versionId),
     after [Coordinator (addNewDownload objectKey versionId);
            SendGetObject (getObjectCommand this objectKey);
            Coordinator (setRunningState objectKey versionId)] w).
Proof.
  intros Hc Ha Hb.
  unfold getObject.
  rewrite Hc. fold (getObjectCommand this objectKey). run_method.
  rewrite Ha. cbn beta iota. rewrite Hb. reflexivity.
Qed.

Lemma getObject_rejected (this : t) (client : S3Client)
    (objectKey versionId : string) (reason : JsError) (w : World R) :
  s3Client this = Some client →
  answerGetObject client (getObjectCommand this objectKey)
    = inl reason →
  getObject this objectKey versionId w
  = (inl reason,
     after [Coordinator (addNewDownload objectKey versionId);
            SendGetObject (getObjectCommand this objectKey);
            Coordinator (setErrorState objectKey versionId)] w).
Proof.
  intros Hc Ha.
  unfold getObject.
  rewrite Hc. fold (getObjectCommand this objectKey). run_method.
  rewrite Ha. reflexivity.
Qed.

Lemma getObject_no_body (this : t) (client : S3Client)
    (objectKey versionId : string) (response : GetObjectCommandOutput)
    (w : World R) :
  s3Client this = Some client →
  answerGetObject client (getObjectCommand this objectKey)
    = inr response →
  Body response = None →
  getObject this objectKey versionId w
  = (inl (mkError ("Failed to retrieve object " +:+ objectKey
                   +:+ " from S3")),
     after [Coordinator (addNewDownload objectKey versionId);
            SendGetObject (getObjectCommand this objectKey);
            Coordinator (setErrorState objectKey versionId)] w).
Proof.
  intros Hc Ha Hb.
  unfold getObject.
  rewrite Hc. fold (getObjectCommand this objectKey). run_method.
  rewrite Ha. cbn beta iota. rewrite Hb. reflexivity.
Qed.

(** [flow] is [read()] called again and again. *)
Lemma flow_read (node : RejectedRead) (r : ReadableStream) :
  flow node r
  = match read r with
    | (inr (PushBuffer chunk), rest) =>
        let '(evs, ended) := flow node rest in (pushed chunk ++ evs, ended)
    | (inr PushNull, _) => ([end_], true)
    | (inl reason, _) => (rejected_read node reason, false)
    end.
Proof. by destruct r. Qed.


Lemma flow_rejection (node : RejectedRead) (r : ReadableStream)
    (reason : JsError) :
  rejection r = Some reason →
  flow node r = (data_events r ++ rejected_read node reason, false).
Proof.
  unfold data_events.
  induction r as [value rest IH| |reason']; simpl; intros Hr;
    [|done|by simplify_eq].
  by rewrite (IH Hr), app_assoc.
Qed.


Lemma drain_returned_stream_rejection (node : RejectedRead)
    (body : ReadableStream) (objectKey versionId : string)
    (reason : JsError) (w : World R) :
  rejection body = Some reason →
  drain node (returned_stream body objectKey versionId) w
  = (inr (data_events body ++ rejected_read node reason), w).
Proof.
  intros Hr. unfold drain. simpl. by rewrite (flow_rejection _ _ _ Hr).
Qed.

End AnyManager.
End ClientFacts.

Module ClientClaims.
Import DownloadManager Client ClientSpec ClientFacts.

Section AnyManager.
Context {R : Type} `{!DownloadManager.Ops R}.

(** C1: when the listing succeeds, only the versions whose key equals the
    requested key count (a listed key that merely extends it is passed
    over): the result is the version id of the first of them, and the
    absent value, returned and not thrown, when there is none. *)
Theorem getLatestObjectVersion_first_exact_match (this : t)
    (client : S3Client) (objectKey : string)
    (response : ListObjectVersionsCommandOutput) (w : World R) :
  s3Client this = Some client →
  answerListObjectVersions client (listCommand this objectKey)
    = inr response →
  let listed := default [] (Versions response) in
  let result := fst (getLatestObjectVersion this objectKey w) in
  ((∀ version, version ∈ listed → ov_Key version ≠ Some objectKey) →
     result = inr None) ∧
  (∀ skipped version rest,
     listed = skipped ++ version :: rest →
     (∀ other, other ∈ skipped → ov_Key other ≠ Some objectKey) →
     ov_Key version = Some objectKey →
     result = inr (ov_VersionId version)).
Proof.
  intros Hc Ha listed result. subst result.
  rewrite (getLatestObjectVersion_listed this client objectKey response w
             Hc Ha).
  fold listed. simpl. split.
  - intros Hnone.
    rewrite filter_none; [done|]. by apply Forall_forall.
  - intros skipped version rest -> Hskipped Hkey.
    rewrite filter_app, filter_cons_True by done.
    rewrite filter_none; [done|]. by apply Forall_forall.
Qed.

(** C5: with no initialised client, version resolution, object fetch and
    signed-URL generation each throw the precondition error and leave
    the world as it was: no remote request is issued. *)
Theorem uninitialized_client_fails_fast (config : Config) (this : t)
    (objectKey versionId : string) (w : World R) :
  s3Client this = None →
  getLatestObjectVersion this objectKey w = (inl notInitialized, w) ∧
  getObject this objectKey versionId w = (inl notInitialized, w) ∧
  getSignedUrlForObject config this objectKey w = (inl notInitialized, w).
Proof.
  intros Hc.
  unfold getLatestObjectVersion, getObjectMetadata, getObject,
    getSignedUrlForObject.
  rewrite Hc. by run_method.
Qed.

(** C9: signing never touches the download manager.  Whether it returns
    a URL or throws, the registry is the one it started from and no
    coordinator call has been made. *)
Theorem getSignedUrlForObject_leaves_registry (config : Config) (this : t)
    (objectKey : string) (w : World R) :
  let w' := snd (getSignedUrlForObject config this objectKey w) in
  registry w' = registry w ∧
  coordinator_calls (events w') = coordinator_calls (events w).
Proof.
  unfold getSignedUrlForObject.
  destruct (s3Client this) as [client|]; run_method; [|done].
  destruct (answerGetSignedUrl client _ _); simpl;
    unfold coordinator_calls; rewrite omap_app; simpl;
    by rewrite app_nil_r.
Qed.

(** C10: on an uninitialised client the fetch throws before the download
    manager is reached: the registry is unchanged and no coordinator
    call has been made. *)
Theorem getObject_uninitialized_leaves_registry (this : t)
    (objectKey versionId : string) (w : World R) :
  s3Client this = None →
  let outcome := getObject this objectKey versionId w in
  fst outcome = inl notInitialized ∧
  registry (snd outcome) = registry w ∧
  coordinator_calls (events (snd outcome)) = coordinator_calls (events w).
Proof. intros Hc. unfold getObject. rewrite Hc. by run_method. Qed.

End AnyManager.
End ClientClaims.

Module CoordinatorFacts.
Import Coordinator.

Lemma getState_registerAttempt (key versionId : string) (r : Registry) :
  getState key versionId (registerAttempt key versionId r)
  = Some (default QUEUED (getState key versionId r)).
Proof.
  unfold getState, registerAttempt.
  destruct (r !! (key, versionId)) as [s|] eqn:Hr; simpl.
  - by rewrite Hr.
  - by rewrite lookup_insert_eq.
Qed.

Lemma getState_markRunning (key versionId : string) (r : Registry) :
  getState key versionId (markRunning key versionId r)
  = match getState key versionId r with
    | Some QUEUED => Some RUNNING
    | other => other
    end.
Proof.
  unfold getState, markRunning.
  destruct (r !! (key, versionId)) as [[]|] eqn:Hr;
    by rewrite ?lookup_insert_eq, ?Hr.
Qed.

Lemma getState_markCompleted (key versionId : string) (r : Registry) :
  getState key versionId (markCompleted key versionId r)
  = match getState key versionId r with
    | Some RUNNING => Some COMPLETED
    | other => other
    end.
Proof.
  unfold getState, markCompleted.
  destruct (r !! (key, versionId)) as [[]|] eqn:Hr;
    by rewrite ?lookup_insert_eq, ?Hr.
Qed.

Lemma getState_markError (key versionId : string) (r : Registry) :
  getState key versionId (markError key versionId r)
  = match getState key versionId r with
    | Some QUEUED | Some RUNNING => Some ERROR
    | other => other
    end.
Proof.
  unfold getState, markError.
  destruct (r !! (key, versionId)) as [[]|] eqn:Hr;
    by rewrite ?lookup_insert_eq, ?Hr.
Qed.

End CoordinatorFacts.

Module CoordinatedClient.
Import DownloadManager Coordinator Client ClientSpec ClientFacts.
Import CoordinatorFacts Scenario.

Section AnyLifecycle.
Context {R : Type} `{!DownloadManager.Ops R} `{!Lifecycle R}.



End AnyLifecycle.



(** C4, at the failing input: the body breaks after its first chunk.  The
    fetch has returned with the record RUNNING; draining delivers the one
    chunk, then at most what the runtime makes of the rejected [read()], and
    it leaves the world as it was: [setErrorState] is never called and the
    record stays RUNNING. *)
Theorem stream_failure_leaves_record_running :
  ∀ node : RejectedRead,
  ∃ stream w1,
    getObject (client_of (Some broken_body_store)) "a" "v2" (world_of ∅)
    = (inr stream, w1) ∧
    coordinator_calls (events w1)
    = [addNewDownload "a" "v2"; setRunningState "a" "v2"] ∧
    drain node stream w1
    = (inr (data chunk1 :: rejected_read node network_error), w1) ∧
    getState "a" "v2" (registry w1) = Some RUNNING.
Proof. intros node. eexists _, _. split_and!; reflexivity. Qed.

(** The same for every body that breaks and every download manager: the
    drain changes nothing, and the adapter itself signals nothing but the
    chunks. *)
Lemma stream_failure_is_not_recorded {R : Type} `{!DownloadManager.Ops R}
    (node : RejectedRead) (body : ReadableStream)
    (objectKey versionId : string) (reason : JsError) (w : World R) :
  rejection body = Some reason →
  drain node (returned_stream body objectKey versionId) w
  = (inr (data_events body ++ rejected_read node reason), w).
Proof. apply drain_returned_stream_rejection. Qed.

End CoordinatedClient.

(** ** The general client properties at concrete stores *)

Module ClientScenarios.
Import DownloadManager Coordinator Client ClientSpec ClientClaims Scenario.

(** The listing holds [a/b] before two versions of [a]: the first version
    of [a] is the answer. *)
Lemma getLatestObjectVersion_first_exact_match_witness :
  fst (getLatestObjectVersion (client_of (Some healthy_store)) "a"
         (world_of ∅))
  = inr (Some "v2").
Proof.
  destruct (getLatestObjectVersion_first_exact_match
              (client_of (Some healthy_store)) healthy_store "a" _
              (world_of ∅) eq_refl eq_refl) as [_ Hfirst].
  apply (Hfirst [version_a_b] version_a_2 [version_a_1]).
  - reflexivity.
  - intros other Hother. apply list_elem_of_singleton in Hother as ->.
    vm_compute. discriminate.
  - reflexivity.
Defined.

Lemma uninitialized_client_fails_fast_witness :
  let this := client_of None in
  let w := world_of {[("a", "v2") := COMPLETED]} in
  getLatestObjectVersion this "a" w = (inl notInitialized, w) ∧
  getObject this "a" "v2" w = (inl notInitialized, w) ∧
  getSignedUrlForObject spec_config this "a" w = (inl notInitialized, w).
Proof.
  intros this w.
  apply (uninitialized_client_fails_fast spec_config this "a" "v2" w).
  reflexivity.
Defined.

Lemma getObject_uninitialized_leaves_registry_witness :
  let this := client_of None in
  let w := world_of {[("a", "v2") := COMPLETED]} in
  fst (getObject this "a" "v3" w) = inl notInitialized ∧
  registry (snd (getObject this "a" "v3" w)) = registry w ∧
  coordinator_calls (events (snd (getObject this "a" "v3" w)))
  = coordinator_calls (events w).
Proof.
  intros this w.
  apply (getObject_uninitialized_leaves_registry this "a" "v3" w).
  reflexivity.
Defined.

(** Signing at a healthy and at a failing store: a URL, respectively the
    store's error, and an untouched registry either way. *)
Example getSignedUrlForObject_healthy :
  getSignedUrlForObject spec_config (client_of (Some healthy_store)) "a"
    (world_of {[("a", "v2") := RUNNING]})
  = (inr "https://bucket.example/a?signature",
     {| registry := {[("a", "v2") := RUNNING]};
        events := [GetSignedUrl {| go_Bucket := "notes"; go_Key := "a" |}
                     3600] |}).
Proof. reflexivity. Qed.

Example getSignedUrlForObject_failing :
  getSignedUrlForObject spec_config (client_of (Some failing_store)) "a"
    (world_of {[("a", "v2") := RUNNING]})
  = (inl timeout,
     {| registry := {[("a", "v2") := RUNNING]};
        events := [GetSignedUrl {| go_Bucket := "notes"; go_Key := "a" |}
                     3600] |}).
Proof. reflexivity. Qed.

End ClientScenarios.

(** ** A body with an empty chunk *)

Example flow_skips_empty_chunk :
  flow LeavesUnhandled (Chunk [] (Chunk Scenario.chunk1 Done))
  = ([data Scenario.chunk1; end_], true).
Proof. reflexivity. Qed.

(** ** [split] on the references of the specification *)

Example split_direct : split "s3://photo.png" "//" = ["s3:"; "photo.png"].
Proof. reflexivity. Qed.

Example split_signed :
  split "s3-signed://doc.pdf" "//" = ["s3-signed:"; "doc.pdf"].
Proof. reflexivity. Qed.

Example split_trailing : split "a//" "//" = ["a"; ""].
Proof. reflexivity. Qed.

Example split_overlap : split "///" "//" = [""; "/"].
Proof. reflexivity. Qed.

Example split_empty : split "" "//" = [""].
Proof. reflexivity. Qed.

Example split_no_separator : split "ab" "" = ["a"; "b"].
Proof. reflexivity. Qed.

Example split_nothing : split "" "" = [].
Proof. reflexivity. Qed.

(** ** String append and [split] *)

Lemma append_cons (c : Ascii.ascii) (s t : string) :
  String c s +:+ t = String c (s +:+ t).
Proof. reflexivity. Qed.

Lemma append_nil_l (s : string) : "" +:+ s = s.
Proof. reflexivity. Qed.

Lemma append_nil_r (s : string) : s +:+ "" = s.
Proof.
  induction s as [|c s IH]; [done|]. by rewrite append_cons, IH.
Qed.

Lemma append_assoc (s1 s2 s3 : string) :
  (s1 +:+ s2) +:+ s3 = s1 +:+ s2 +:+ s3.
Proof.
  induction s1 as [|c s1 IH]; [done|]. by rewrite !append_cons, IH.
Qed.

Lemma prefix_append (sep rest : string) :
  String.prefix sep (sep +:+ rest) = true.
Proof.
  induction sep as [|c sep IH]; [by destruct rest|].
  rewrite append_cons. simpl.
  destruct (Ascii.ascii_dec c c); [done|congruence].
Qed.

Lemma split_go_skip (sep pre rest cur : string) :
  split_go sep (String.length pre) cur (pre +:+ rest) = split_go sep 0 cur rest.
Proof.
  induction pre as [|c pre IH]; [done|].
  rewrite append_cons. simpl. exact IH.
Qed.

Lemma split_go_match (c : Ascii.ascii) (sep' rest cur : string) :
  split_go (String c sep') 0 cur (String c sep' +:+ rest)
  = cur :: split_go (String c sep') 0 "" rest.
Proof.
  pose proof (prefix_append (String c sep') rest) as Hp.
  rewrite append_cons in *. cbn [split_go]. rewrite Hp.
  cbn [String.length]. rewrite Nat.sub_succ, Nat.sub_0_r.
  by rewrite split_go_skip.
Qed.

Lemma split_go_first (sep a rest cur : string) :
  sep ≠ "" →
  begins_within sep a (sep +:+ rest) = false →
  split_go sep 0 cur (a +:+ sep +:+ rest)
  = (cur +:+ a) :: split_go sep 0 "" rest.
Proof.
  intros Hsep. revert cur. induction a as [|c a IH]; intros cur Hfree.
  - destruct sep as [|c0 sep']; [done|].
    rewrite append_nil_r, append_nil_l. apply split_go_match.
  - cbn [begins_within] in Hfree.
    apply orb_false_iff in Hfree as [Hhere Hlater].
    rewrite append_cons in *. cbn [split_go]. rewrite Hhere, (IH _ Hlater).
    by rewrite append_assoc.
Qed.

Lemma split_go_last (sep s cur : string) :
  occurs sep s = false → split_go sep 0 cur s = [cur +:+ s].
Proof.
  revert cur. induction s as [|c s IH]; intros cur Hfree.
  - simpl. by rewrite append_nil_r.
  - cbn [occurs] in Hfree. apply orb_false_iff in Hfree as [Hhere Hlater].
    cbn [split_go]. rewrite Hhere, (IH _ Hlater).
    by rewrite append_assoc.
Qed.

Lemma split_first (sep a rest : string) :
  sep ≠ "" →
  begins_within sep a (sep +:+ rest) = false →
  split (a +:+ sep +:+ rest) sep = a :: split rest sep.
Proof.
  intros Hsep Hfree. unfold split. destruct sep as [|c sep']; [done|].
  by rewrite split_go_first.
Qed.

Lemma split_last (sep s : string) :
  sep ≠ "" → occurs sep s = false → split s sep = [s].
Proof.
  intros Hsep Hfree. unfold split. destruct sep as [|c sep']; [done|].
  by rewrite split_go_last.
Qed.

(** ** More on the image resolver *)

Module ClassifierFacts.
Import Resolver ImageResolver ResolverSpec ImageResolverFacts ImageResolverClaims.
Import ClassifierSpec.

Lemma classify_parts (config : Config) (reference first : string)
    (more : list string) :
  split reference (S3_LINK_SPLITTER config) = first :: more →
  classify config reference = kind_of_first_part config first (more !! 0).
Proof.
  intros Hparts. unfold classify, kind_of_first_part. rewrite Hparts.
  unfold s3LinkLeftPart, s3LinkRightPart. simpl.
  repeat case_decide; simplify_eq; done.
Qed.

Lemma in_direct_map (config : Config) (this : t) (element e : HTMLElement)
    (k : option string) (l : list HTMLElement) :
  r_objectKeys (fst (resolveHtmlElement config this element)) !! k = Some l →
  e ∈ l →
  classify config (src e) = DIRECT k ∧
  e ∈ querySelectorAll element targetElement.
Proof.
  intros Hl He.
  destruct (resolveHtmlElement_entries config this element k) as [Hd _].
  rewrite Hd, appended_None in Hl. apply entry_Some in Hl as [-> _].
  by apply list_elem_of_filter in He.
Qed.

Lemma in_signed_map (config : Config) (this : t) (element e : HTMLElement)
    (k : option string) (l : list HTMLElement) :
  r_signObjectKeys (fst (resolveHtmlElement config this element)) !! k
    = Some l →
  e ∈ l →
  classify config (src e) = SIGNED k ∧
  e ∈ querySelectorAll element targetElement.
Proof.
  intros Hl He.
  destruct (resolveHtmlElement_entries config this element k) as [_ Hs].
  rewrite Hs, appended_None in Hl. apply entry_Some in Hl as [-> _].
  by apply list_elem_of_filter in He.
Qed.

(** An image of the tree is found where its classification says. *)
Lemma image_filed (config : Config) (this : t) (element e : HTMLElement) :
  e ∈ querySelectorAll element targetElement →
  filed_as (fst (resolveHtmlElement config this element)) e
    (classify config (src e)).
Proof.
  intros He.
  assert (Hnot_d : ∀ k l,
            r_objectKeys (fst (resolveHtmlElement config this element)) !! k
              = Some l →
            e ∈ l → classify config (src e) = DIRECT k).
  { intros k l Hl Hel. by eapply in_direct_map. }
  assert (Hnot_s : ∀ k l,
            r_signObjectKeys (fst (resolveHtmlElement config this element)) !! k
              = Some l →
            e ∈ l → classify config (src e) = SIGNED k).
  { intros k l Hl Hel. by eapply in_signed_map. }
  destruct (classify config (src e)) as [k|k|] eqn:Hc; simpl.
  - split.
    + destruct (resolveHtmlElement_entries config this element k) as [Hd _].
      assert (He' : e ∈ direct_under config k
                          (querySelectorAll element targetElement))
        by (apply list_elem_of_filter; done).
      exists (direct_under config k (querySelectorAll element targetElement)).
      split; [|done]. rewrite Hd, appended_None.
      destruct (direct_under config k _); [|done].
      by apply not_elem_of_nil in He'.
    + split.
      * intros k' l Hl Hel. specialize (Hnot_d _ _ Hl Hel). congruence.
      * intros k' l Hl Hel. by specialize (Hnot_s _ _ Hl Hel).
  - split.
    + destruct (resolveHtmlElement_entries config this element k) as [_ Hs].
      assert (He' : e ∈ signed_under config k
                          (querySelectorAll element targetElement))
        by (apply list_elem_of_filter; done).
      exists (signed_under config k (querySelectorAll element targetElement)).
      split; [|done]. rewrite Hs, appended_None.
      destruct (signed_under config k _); [|done].
      by apply not_elem_of_nil in He'.
    + split.
      * intros k' l Hl Hel. specialize (Hnot_s _ _ Hl Hel). congruence.
      * intros k' l Hl Hel. by specialize (Hnot_d _ _ Hl Hel).
  - split.
    + intros k' l Hl Hel. by specialize (Hnot_d _ _ Hl Hel).
    + intros k' l Hl Hel. by specialize (Hnot_s _ _ Hl Hel).
Qed.

(** X1: an image whose reference is a first part, the splitter and a key
    free of the splitter is classified by its first part alone, with exactly
    that key: direct when the first part is the direct marker (also when both
    markers are configured equal), signed when it is the signed marker,
    unrelated otherwise; and the resolver files the image accordingly. *)
Theorem two_part_reference_filed_by_marker (config : Config) (this : t)
    (element e : HTMLElement) (first key : string) :
  S3_LINK_SPLITTER config ≠ "" →
  begins_within (S3_LINK_SPLITTER config) first
    (S3_LINK_SPLITTER config +:+ key) = false →
  occurs (S3_LINK_SPLITTER config) key = false →
  src e = first +:+ S3_LINK_SPLITTER config +:+ key →
  e ∈ querySelectorAll element targetElement →
  classify config (src e) = kind_of_first_part config first (Some key) ∧
  filed_as (fst (resolveHtmlElement config this element)) e
    (kind_of_first_part config first (Some key)).
Proof.
  intros Hsep Hfirst Hkey Hsrc He.
  assert (Hc : classify config (src e)
               = kind_of_first_part config first (Some key)).
  { rewrite Hsrc.
    rewrite (classify_parts config _ first [key]); [done|].
    rewrite split_first by done. by rewrite split_last. }
  split; [exact Hc|]. rewrite <- Hc. by apply image_filed.
Qed.

(** X2: only the part between the first and the second splitter is taken
    as the key.  Whatever follows a second splitter in the reference is
    dropped: the image is filed under the shortened key. *)
Theorem key_is_cut_at_second_splitter (config : Config) (this : t)
    (element e : HTMLElement) (first key rest : string) :
  S3_LINK_SPLITTER config ≠ "" →
  begins_within (S3_LINK_SPLITTER config) first
    (S3_LINK_SPLITTER config +:+ key +:+ S3_LINK_SPLITTER config +:+ rest)
    = false →
  begins_within (S3_LINK_SPLITTER config) key
    (S3_LINK_SPLITTER config +:+ rest) = false →
  src e = first +:+ S3_LINK_SPLITTER config +:+ key
          +:+ S3_LINK_SPLITTER config +:+ rest →
  e ∈ querySelectorAll element targetElement →
  classify config (src e) = kind_of_first_part config first (Some key) ∧
  filed_as (fst (resolveHtmlElement config this element)) e
    (kind_of_first_part config first (Some key)).
Proof.
  intros Hsep Hfirst Hkey Hsrc He.
  assert (Hc : classify config (src e)
               = kind_of_first_part config first (Some key)).
  { rewrite Hsrc.
    rewrite (classify_parts config _ first
               (key :: split rest (S3_LINK_SPLITTER config))); [done|].
    rewrite split_first by done. by rewrite split_first. }
  split; [exact Hc|]. rewrite <- Hc. by apply image_filed.
Qed.

End ClassifierFacts.

Module TreeFacts.
Import Resolver ImageResolver ClassifierSpec ClassifierFacts.

Lemma HTMLElement_nested_ind (P : HTMLElement → Prop) :
  (∀ i n s cs, Forall P cs → P (Element i n s cs)) → ∀ e, P e.
Proof.
  intros Hnode. fix IH 1. intros [i n s cs]. apply Hnode.
  induction cs as [|c cs IHcs]; constructor; [apply IH|exact IHcs].
Qed.

Lemma size_below_children (x : HTMLElement) (cs : list HTMLElement) :
  Forall (λ c, ∀ y, y ∈ inclusive_descendants c → (size y ≤ size c)%nat) cs →
  x ∈ flat_map inclusive_descendants cs →
  (size x ≤ list_sum (map size cs))%nat.
Proof.
  induction 1 as [|c cs Hc _ IH]; simpl; intros Hx.
  - by apply not_elem_of_nil in Hx.
  - apply elem_of_app in Hx as [Hx|Hx].
    + specialize (Hc _ Hx). lia.
    + specialize (IH Hx). lia.
Qed.

Lemma size_inclusive_descendant (e x : HTMLElement) :
  x ∈ inclusive_descendants e → (size x ≤ size e)%nat.
Proof.
  revert x. induction e as [i n s cs IH] using HTMLElement_nested_ind.
  intros x Hx. cbn [inclusive_descendants] in Hx.
  apply elem_of_cons in Hx as [->|Hx]; [done|].
  cbn [size]. pose proof (size_below_children x cs IH Hx). lia.
Qed.

Lemma root_not_below (element x : HTMLElement) :
  x ∈ flat_map inclusive_descendants (children element) → x ≠ element.
Proof.
  intros Hx ->. destruct element as [i n s cs]. cbn [children] in Hx.
  assert (Hall : Forall (λ c, ∀ y, y ∈ inclusive_descendants c →
                               (size y ≤ size c)%nat) cs).
  { apply Forall_forall. intros c _ y. apply size_inclusive_descendant. }
  pose proof (size_below_children _ cs Hall Hx) as Hle.
  cbn [size] in Hle. lia.
Qed.

(** X3: every element found in either returned map is an [img] below the
    root with a reference that classifies as direct or signed; the root
    itself is never filed, whatever it is. *)
Theorem only_image_descendants_are_filed (config : Config) (this : t)
    (element e : HTMLElement) (k : option string) (l : list HTMLElement) :
  r_objectKeys (fst (resolveHtmlElement config this element)) !! k = Some l ∨
  r_signObjectKeys (fst (resolveHtmlElement config this element)) !! k
    = Some l →
  e ∈ l →
  localName e = targetElement ∧
  e ∈ flat_map inclusive_descendants (children element) ∧
  e ≠ element ∧
  classify config (src e) ≠ UNRELATED.
Proof.
  intros Hl He.
  assert (Hq : e ∈ querySelectorAll element targetElement
               ∧ classify config (src e) ≠ UNRELATED).
  { destruct Hl as [Hl|Hl].
    - destruct (in_direct_map config this element e k l Hl He) as [Hc ?].
      split; [done|]. by rewrite Hc.
    - destruct (in_signed_map config this element e k l Hl He) as [Hc ?].
      split; [done|]. by rewrite Hc. }
  destruct Hq as [Hq Hc]. unfold querySelectorAll in Hq.
  apply list_elem_of_filter in Hq as [Hname Hbelow].
  split_and!; try done. by apply root_not_below.
Qed.

End TreeFacts.

(** ** Outcomes of the protocol operations *)

Module ClientOutcomes.
Import DownloadManager Client ClientSpec ClientFacts ClientOutcomeSpec.

Section AnyManager.
Context {R : Type} `{!DownloadManager.Ops R}.

Lemma getLatestObjectVersion_rejected (this : t) (client : S3Client)
    (objectKey : string) (reason : JsError) (w : World R) :
  s3Client this = Some client →
  answerListObjectVersions client (listCommand this objectKey) = inl reason →
  getLatestObjectVersion this objectKey w
  = (inl reason,
     after [SendListObjectVersions (listCommand this objectKey)] w).
Proof.
  intros Hc Ha. unfold getLatestObjectVersion, getObjectMetadata.
  rewrite Hc. fold (listCommand this objectKey). run_method.
  by rewrite Ha.
Qed.

(** X4: on an initialised client, version resolution sends exactly one
    listing request, for the configured bucket with the object key as the
    prefix, and never touches the registry; it throws exactly when the
    listing fails, and then it throws the listing's own error. *)
Theorem getLatestObjectVersion_outcome (this : t) (client : S3Client)
    (objectKey : string) (w : World R) :
  s3Client this = Some client →
  let outcome := getLatestObjectVersion this objectKey w in
  events (snd outcome)
  = events w ++ [SendListObjectVersions
                   {| lov_Bucket := bucketName (settings this);
                      lov_Prefix := objectKey |}] ∧
  registry (snd outcome) = registry w ∧
  (∀ reason,
     fst outcome = inl reason ↔
     answerListObjectVersions client
       {| lov_Bucket := bucketName (settings this); lov_Prefix := objectKey |}
     = inl reason).
Proof.
  intros Hc outcome. subst outcome.
  fold (listCommand this objectKey).
  destruct (answerListObjectVersions client (listCommand this objectKey))
    as [reason|response] eqn:Ha.
  - rewrite (getLatestObjectVersion_rejected this client objectKey reason w
               Hc Ha).
    split_and!; [done|done|]. intros reason'. simpl. split; congruence.
  - rewrite (getLatestObjectVersion_listed this client objectKey response w
               Hc Ha).
    split_and!; [done|done|]. intros reason'. simpl. split; congruence.
Qed.

(** X5: on an initialised client, signing issues exactly one presign
    request, for the command [getObject] would send for that key and with
    the configured expiry; the presigner's URL is returned as it is and its
    error is rethrown as it is. *)
Theorem getSignedUrlForObject_outcome (config : Config) (this : t)
    (client : S3Client) (objectKey : string) (w : World R) :
  s3Client this = Some client →
  let command := {| go_Bucket := bucketName (settings this);
                    go_Key := objectKey |} in
  let expiresIn := S3_SIGNED_LINK_EXPIRATION_TIME_SECONDS config in
  getSignedUrlForObject config this objectKey w
  = (answerGetSignedUrl client command expiresIn,
     {| registry := registry w;
        events := events w ++ [GetSignedUrl command expiresIn] |}).
Proof.
  intros Hc command expiresIn. unfold getSignedUrlForObject.
  rewrite Hc. run_method. fold command expiresIn.
  by destruct (answerGetSignedUrl client command expiresIn).
Qed.

(** X6: on an initialised client, a fetch returns a stream exactly when the
    store answers with a body.  Either way it sends one request and makes
    two coordinator calls: [addNewDownload], then [setRunningState] when it
    returns and [setErrorState] when it throws. *)
Theorem getObject_returns_iff_body (this : t) (client : S3Client)
    (objectKey versionId : string) (w : World R) :
  s3Client this = Some client →
  let outcome := getObject this objectKey versionId w in
  let answer := answerGetObject client (getObjectCommand this objectKey) in
  ((∃ stream, fst outcome = inr stream) ↔
   (∃ response body, answer = inr response ∧ Body response = Some body)) ∧
  requests (events (snd outcome))
  = requests (events w) ++ [SendGetObject (getObjectCommand this objectKey)] ∧
  coordinator_calls (events (snd outcome))
  = coordinator_calls (events w) ++
    [addNewDownload objectKey versionId;
     if fst outcome is inr _ then setRunningState objectKey versionId
     else setErrorState objectKey versionId].
Proof.
  intros Hc outcome answer. subst outcome.
  destruct (answerGetObject client (getObjectCommand this objectKey))
    as [reason|response] eqn:Ha; subst answer.
  - rewrite (getObject_rejected this client objectKey versionId reason w
               Hc Ha).
    cbn [fst snd]. rewrite after_events. unfold requests, coordinator_calls.
    rewrite filter_app, omap_app. simpl. split_and!; [|done|done].
    split; [by intros [? ?]|]. by intros (? & ? & ? & ?).
  - destruct (Body response) as [body|] eqn:Hb.
    + rewrite (getObject_body this client objectKey versionId response body w
                 Hc Ha Hb).
      cbn [fst snd]. rewrite after_events. unfold requests, coordinator_calls.
      rewrite filter_app, omap_app. simpl. split_and!; [|done|done].
      split; [|by eexists]. intros _. by exists response, body.
    + rewrite (getObject_no_body this client objectKey versionId response w
                 Hc Ha Hb).
      cbn [fst snd]. rewrite after_events. unfold requests, coordinator_calls.
      rewrite filter_app, omap_app. simpl. split_and!; [|done|done].
      split; [by intros [? ?]|]. intros (? & ? & ? & ?). congruence.
Qed.

(** X7: the version id of a fetch only labels the download record.  Two
    fetches of one key with different version ids send the same requests
    and deliver the same body, or throw the same error. *)
Theorem getObject_ignores_versionId (this : t) (objectKey v1 v2 : string)
    (w : World R) :
  let outcome1 := getObject this objectKey v1 w in
  let outcome2 := getObject this objectKey v2 w in
  requests (events (snd outcome1)) = requests (events (snd outcome2)) ∧
  delivered (fst outcome1) = delivered (fst outcome2).
Proof.
  unfold getObject. destruct (s3Client this) as [client|]; [|done].
  run_method.
  destruct (answerGetObject client _) as [reason|response]; simpl.
  - unfold requests. by rewrite !filter_app.
  - destruct (Body response) as [body|]; simpl;
      unfold requests; by rewrite !filter_app.
Qed.

End AnyManager.
End ClientOutcomes.

(** ** Creating the client *)

Module CreationFacts.
Import Creation CreationSpec.

Section WithEnvironment.
Context (env : Environment).

Lemma createS3Client_not_ready (st : State) :
  isPluginReadyState env (settings (this st)) = false →
  createS3Client env st = Resolved (set_s3Client None st).
Proof. intros Hr. unfold createS3Client. by rewrite Hr. Qed.

Lemma createS3Client_static (st : State) :
  isPluginReadyState env (settings (this st)) = true →
  profile_set env (settings (this st)) = false →
  createS3Client env st
  = assign_new_client env (static_config (settings (this st))) st.
Proof.
  intros Hr Hp. unfold createS3Client, profile_set in *. by rewrite Hr, Hp.
Qed.

(** Runs [createS3Client] to its end along the branch the hypotheses in
    the context select. *)
Ltac run_creation :=
  unfold createS3Client, assign_new_client, profile_set,
    lookup_finds_nothing, await_answer, profile_config, static_config in *;
  repeat match goal with
         | H : _ = _ |- _ => rewrite H
         end;
  cbn [settled rejects_with on_return].

Lemma createS3Client_static_built (st : State) (client : S3Client) :
  isPluginReadyState env (settings (this st)) = true →
  profile_set env (settings (this st)) = false →
  newS3Client env (static_config (settings (this st))) = inr client →
  createS3Client env st = Resolved (set_s3Client (Some client) st).
Proof.
  intros Hr Hp Hn. rewrite createS3Client_static by done.
  unfold assign_new_client. by rewrite Hn.
Qed.

Lemma createS3Client_static_throws (st : State) (reason : JsError) :
  isPluginReadyState env (settings (this st)) = true →
  profile_set env (settings (this st)) = false →
  newS3Client env (static_config (settings (this st))) = inl reason →
  createS3Client env st = Rejected reason st.
Proof.
  intros Hr Hp Hn. rewrite createS3Client_static by done.
  unfold assign_new_client. by rewrite Hn.
Qed.

Lemma createS3Client_found_built (st : State) (c : AwsCredential.t)
    (client : S3Client) :
  isPluginReadyState env (settings (this st)) = true →
  profile_set env (settings (this st)) = true →
  answerGetAwsCredentials env (Settings.profile (settings (this st)))
    = inr (Some c) →
  newS3Client env (profile_config (settings (this st)) c) = inr client →
  settled (createS3Client env st)
  = set_s3Client (Some client)
      (perform_effect
         (getAwsCredentials (Settings.profile (settings (this st)))) st) ∧
  rejects_with (createS3Client env st) = None.
Proof. intros Hr Hp Ha Hn. run_creation. simpl. by rewrite Hn. Qed.

Lemma createS3Client_found_throws (st : State) (c : AwsCredential.t)
    (reason : JsError) :
  isPluginReadyState env (settings (this st)) = true →
  profile_set env (settings (this st)) = true →
  answerGetAwsCredentials env (Settings.profile (settings (this st)))
    = inr (Some c) →
  newS3Client env (profile_config (settings (this st)) c) = inl reason →
  settled (createS3Client env st)
  = perform_effect
      (getAwsCredentials (Settings.profile (settings (this st)))) st ∧
  rejects_with (createS3Client env st) = Some reason.
Proof. intros Hr Hp Ha Hn. run_creation. simpl. by rewrite Hn. Qed.

Lemma createS3Client_provider_rejects (st : State) (reason : JsError) :
  isPluginReadyState env (settings (this st)) = true →
  profile_set env (settings (this st)) = true →
  answerGetAwsCredentials env (Settings.profile (settings (this st)))
    = inl reason →
  settled (createS3Client env st)
  = perform_effect
      (getAwsCredentials (Settings.profile (settings (this st)))) st ∧
  rejects_with (createS3Client env st) = Some reason.
Proof. intros Hr Hp Ha. by run_creation. Qed.

Lemma createS3Client_nothing_found (st : State) :
  lookup_finds_nothing env (settings (this st)) →
  answerSaveSettings env = inr () →
  settled (createS3Client env st)
  = {| this := {| s3Client := None;
                  settings := Settings.with_profile "" (settings (this st)) |};
       effects := effects st ++
         [getAwsCredentials (Settings.profile (settings (this st)));
          setState_ERROR; saveSettings;
          sendNotification credentials_missing] |} ∧
  rejects_with (createS3Client env st) = None.
Proof.
  intros (Hr & Hp & Ha) Hs. run_creation.
  unfold set_s3Client, set_settings, perform_effect. simpl.
  by rewrite <- !app_assoc.
Qed.

Lemma createS3Client_save_rejects (st : State) (reason : JsError) :
  lookup_finds_nothing env (settings (this st)) →
  answerSaveSettings env = inl reason →
  settled (createS3Client env st)
  = {| this := {| s3Client := s3Client (this st);
                  settings := Settings.with_profile "" (settings (this st)) |};
       effects := effects st ++
         [getAwsCredentials (Settings.profile (settings (this st)));
          setState_ERROR; saveSettings] |} ∧
  rejects_with (createS3Client env st) = Some reason.
Proof.
  intros (Hr & Hp & Ha) Hs. run_creation.
  unfold set_s3Client, set_settings, perform_effect. simpl.
  by rewrite <- !app_assoc.
Qed.

(** Every run takes one of the eight branches. *)
Lemma createS3Client_branch (st : State) : Branch env (settings (this st)).
Proof.
  destruct (isPluginReadyState env (settings (this st))) eqn:Hr;
    [|by apply not_ready].
  destruct (profile_set env (settings (this st))) eqn:Hp.
  - destruct (answerGetAwsCredentials env
                (Settings.profile (settings (this st))))
      as [reason|[c|]] eqn:Ha.
    + by eapply provider_rejects.
    + destruct (newS3Client env (profile_config (settings (this st)) c))
        as [reason|client] eqn:Hn.
      * by eapply found_throws.
      * by eapply found_built.
    + destruct (answerSaveSettings env) as [reason|[]] eqn:Hs.
      * by eapply nothing_found_save_rejects.
      * by apply nothing_found_saved.
  - destruct (newS3Client env (static_config (settings (this st))))
      as [reason|client] eqn:Hn.
    + by eapply static_throws.
    + by eapply static_built.
Qed.

End WithEnvironment.
End CreationFacts.

Module CreationClaims.
Import Creation CreationSpec CreationFacts.

Section WithEnvironment.
Context (env : Environment).

(** X8: when the promise of [createS3Client] resolves, an S3 client is in
    place exactly when the settings are ready and either no profile is
    configured or the provider has credentials for the profile. *)
Theorem createS3Client_initialized_iff (st : State) :
  rejects_with (createS3Client env st) = None →
  is_Some (s3Client (this (settled (createS3Client env st)))) ↔
  isPluginReadyState env (settings (this st)) = true ∧
  (profile_set env (settings (this st)) = false ∨
   ∃ c, answerGetAwsCredentials env (Settings.profile (settings (this st)))
        = inr (Some c)).
Proof.
  intros Hresolves.
  destruct (createS3Client_branch env st)
    as [Hr | client Hr Hp Hn | reason Hr Hp Hn | c client Hr Hp Ha Hn
        | c reason Hr Hp Ha Hn | reason Hr Hp Ha | Hnone Hs
        | reason Hnone Hs].
  - rewrite createS3Client_not_ready by done. simpl.
    split; [by intros [? ?]|]. intros [? _]. congruence.
  - rewrite (createS3Client_static_built env st client) by done. simpl.
    split; [intros _; by split; [|left]|]. by eexists.
  - rewrite (createS3Client_static_throws env st reason) in Hresolves
      by done. done.
  - destruct (createS3Client_found_built env st c client Hr Hp Ha Hn)
      as [-> _]. simpl.
    split; [intros _; split; [done|]; right; by exists c|]. by eexists.
  - destruct (createS3Client_found_throws env st c reason Hr Hp Ha Hn)
      as [_ Hrej]. congruence.
  - destruct (createS3Client_provider_rejects env st reason Hr Hp Ha)
      as [_ Hrej]. congruence.
  - destruct (createS3Client_nothing_found env st Hnone Hs) as [-> _].
    destruct Hnone as (Hr & Hp & Ha). simpl.
    split; [by intros [? ?]|].
    intros [_ [Hp' | [c Hc]]]; congruence.
  - destruct (createS3Client_save_rejects env st reason Hnone Hs)
      as [_ Hrej]. congruence.
Qed.


(** X10: when the provider finds no credentials for the configured
    profile, [createS3Client] sets the plugin to its error state, clears the
    profile, saves the settings and then notifies, in this order; afterwards
    every protocol operation throws the precondition error without a
    request. *)
Theorem missing_credentials_disable_client {R : Type}
    `{!DownloadManager.Ops R} (config : Config) (st : State)
    (objectKey versionId : string) (w : World R) :
  lookup_finds_nothing env (settings (this st)) →
  answerSaveSettings env = inr () →
  let st' := settled (createS3Client env st) in
  effects st'
  = effects st ++
    [getAwsCredentials (Settings.profile (settings (this st)));
     setState_ERROR; saveSettings; sendNotification credentials_missing] ∧
  settings (this st') = Settings.with_profile "" (settings (this st)) ∧
  Client.getLatestObjectVersion (protocol_view (this st')) objectKey w
  = (inl Client.notInitialized, w) ∧
  Client.getObject (protocol_view (this st')) objectKey versionId w
  = (inl Client.notInitialized, w) ∧
  Client.getSignedUrlForObject config (protocol_view (this st')) objectKey w
  = (inl Client.notInitialized, w).
Proof.
  intros Hnone Hs st'. subst st'.
  destruct (createS3Client_nothing_found env st Hnone Hs) as [-> _].
  split_and!; done.
Qed.

(** X11: unless the provider finds nothing for a configured profile,
    [createS3Client] leaves the settings as they are and calls no
    collaborator but the provider, which it asks only when the settings are
    ready and a profile is configured. *)
Theorem createS3Client_quiet_unless_lookup_fails (st : State) :
  ¬ lookup_finds_nothing env (settings (this st)) →
  settings (this (settled (createS3Client env st))) = settings (this st) ∧
  effects (settled (createS3Client env st))
  = effects st ++
    (if isPluginReadyState env (settings (this st))
        && profile_set env (settings (this st))
     then [getAwsCredentials (Settings.profile (settings (this st)))]
     else []).
Proof.
  intros Hsome.
  destruct (createS3Client_branch env st)
    as [Hr | client Hr Hp Hn | reason Hr Hp Hn | c client Hr Hp Ha Hn
        | c reason Hr Hp Ha Hn | reason Hr Hp Ha | Hnone Hs
        | reason Hnone Hs]; [..|done|done].
  - rewrite createS3Client_not_ready, Hr by done. simpl.
    by rewrite app_nil_r.
  - rewrite (createS3Client_static_built env st client), Hr, Hp by done.
    simpl. by rewrite app_nil_r.
  - rewrite (createS3Client_static_throws env st reason), Hr, Hp by done.
    simpl. by rewrite app_nil_r.
  - destruct (createS3Client_found_built env st c client Hr Hp Ha Hn)
      as [-> _].
    by rewrite Hr, Hp.
  - destruct (createS3Client_found_throws env st c reason Hr Hp Ha Hn)
      as [-> _].
    by rewrite Hr, Hp.
  - destruct (createS3Client_provider_rejects env st reason Hr Hp Ha)
      as [-> _].
    by rewrite Hr, Hp.
Qed.

(** X12: once a lookup has found nothing, the profile is cleared, so
    creating the client again does not ask the provider: it finishes at
    once, with the client built from the static keys when the settings are
    ready and the constructor accepts them, and with no client otherwise
    (the promise rejecting when the constructor throws). *)
Theorem createS3Client_falls_back_to_static_keys (st : State) :
  lookup_finds_nothing env (settings (this st)) →
  answerSaveSettings env = inr () →
  let st1 := settled (createS3Client env st) in
  let again := createS3Client env st1 in
  on_return again = settled again ∧
  effects (settled again) = effects st1 ∧
  settings (this (settled again))
  = Settings.with_profile "" (settings (this st)) ∧
  s3Client (this (settled again))
  = (if isPluginReadyState env
          (Settings.with_profile "" (settings (this st)))
     then match newS3Client env (static_config (settings (this st))) with
          | inr client => Some client
          | inl _ => None
          end
     else None) ∧
  rejects_with again
  = (if isPluginReadyState env
          (Settings.with_profile "" (settings (this st)))
     then match newS3Client env (static_config (settings (this st))) with
          | inr _ => None
          | inl reason => Some reason
          end
     else None).
Proof.
  intros Hnone Hs st1 again. subst again st1.
  destruct (createS3Client_nothing_found env st Hnone Hs) as [-> _].
  destruct (isPluginReadyState env
              (Settings.with_profile "" (settings (this st)))) eqn:Hr.
  - rewrite createS3Client_static by done.
    unfold assign_new_client, static_config. simpl.
    by destruct (newS3Client env _).
  - by rewrite createS3Client_not_ready.
Qed.

(** X13: [initializeS3Client] installs the new settings at once.  With a
    profile the call returns while the provider is being asked, and the
    protocol operations still see the previous client, next to the new
    settings.  Without a profile (or with settings that are not ready)
    everything has happened when the call returns: the client has been
    replaced, or, when the constructor throws, the previous client is still
    there. *)
Theorem initializeS3Client_on_return (s : Settings.t) (st : State) :
  let returned := on_return (initializeS3Client env s st) in
  settings (this returned) = s ∧
  (isPluginReadyState env s && profile_set env s = true →
   protocol_view (this returned)
   = {| Client.s3Client := s3Client (this st);
        Client.settings := Settings.protocol s |} ∧
   effects returned
   = effects st ++ [getAwsCredentials (Settings.profile s)]) ∧
  (isPluginReadyState env s && profile_set env s = false →
   returned = settled (initializeS3Client env s st) ∧
   s3Client (this returned)
   = if isPluginReadyState env s
     then match newS3Client env (static_config s) with
          | inr client => Some client
          | inl _ => s3Client (this st)
          end
     else None).
Proof.
  intros returned. subst returned. unfold initializeS3Client.
  destruct (isPluginReadyState env s) eqn:Hr.
  - destruct (profile_set env s) eqn:Hp.
    + split_and!; [|intros _|done].
      * unfold createS3Client, profile_set in *. simpl. by rewrite Hr, Hp.
      * unfold createS3Client, profile_set in *. simpl. by rewrite Hr, Hp.
    + rewrite createS3Client_static by done.
      unfold assign_new_client. simpl.
      by destruct (newS3Client env (static_config s)).
  - rewrite createS3Client_not_ready by done. by split_and!.
Qed.

(** X14: an initialisation with a profile that is overtaken by one without
    does not lose.  The newer one installs its client at once; when the
    older lookup completes, it builds a client from the profile's
    credentials and the newer settings' endpoint and region and, unless the
    constructor throws, puts it in the place of the newer client. *)
Theorem overlapping_initializations_mix_settings (older newer : Settings.t)
    (c : AwsCredential.t) (newer_client : S3Client) (st : State) :
  isPluginReadyState env older = true →
  profile_set env older = true →
  answerGetAwsCredentials env (Settings.profile older) = inr (Some c) →
  isPluginReadyState env newer = true →
  profile_set env newer = false →
  newS3Client env (static_config newer) = inr newer_client →
  let first := initializeS3Client env older st in
  let second := initializeS3Client env newer (on_return first) in
  s3Client (this (on_return second)) = Some newer_client ∧
  this (settled (woken_in first (on_return second)))
  = {| s3Client :=
         match newS3Client env (profile_config newer c) with
         | inr mixed_client => Some mixed_client
         | inl _ => Some newer_client
         end;
       settings := newer |}.
Proof.
  intros Hr1 Hp1 Ha Hr2 Hp2 Hn first second. subst first second.
  unfold initializeS3Client.
  assert (Hfirst : ∀ st0,
            woken_in (createS3Client env (set_settings older st)) st0
            = assign_new_client env (profile_config (settings (this st0)) c)
                st0).
  { intros st0. unfold createS3Client, profile_set, await_answer in *.
    simpl. rewrite Hr1, Hp1. simpl. by rewrite Ha. }
  rewrite Hfirst.
  rewrite (createS3Client_static_built env _ newer_client) by done.
  split; [done|]. unfold assign_new_client. simpl.
  by destruct (newS3Client env (profile_config newer c)).
Qed.

End WithEnvironment.
End CreationClaims.

(** ** The further properties at concrete inputs *)

Module ExtraScenarios.
Import Resolver ImageResolver ClassifierSpec ClassifierFacts TreeFacts.
Import DownloadManager Coordinator Client ClientSpec ClientOutcomes.
Import Creation CreationSpec CreationClaims.
Import Scenario Examples.

Lemma photo2_in_note : photo2 ∈ querySelectorAll note targetElement.
Proof. vm_compute. repeat constructor. Qed.

Lemma two_part_reference_filed_by_marker_witness :
  filed_as (fst (resolveHtmlElement spec_config (mk ∅ ∅) note)) photo2
    (DIRECT (Some "photo.png")).
Proof.
  apply (two_part_reference_filed_by_marker spec_config (mk ∅ ∅) note photo2
           "s3:" "photo.png").
  - discriminate.
  - reflexivity.
  - reflexivity.
  - reflexivity.
  - exact photo2_in_note.
Defined.

Lemma key_is_cut_at_second_splitter_witness :
  filed_as (fst (resolveHtmlElement spec_config (mk ∅ ∅) deep_note))
    deep_photo (DIRECT (Some "albums")).
Proof.
  apply (key_is_cut_at_second_splitter spec_config (mk ∅ ∅) deep_note
           deep_photo "s3:" "albums" "2024.png").
  - discriminate.
  - reflexivity.
  - reflexivity.
  - reflexivity.
  - vm_compute. repeat constructor.
Defined.

Lemma only_image_descendants_are_filed_witness :
  localName photo2 = targetElement ∧
  photo2 ∈ flat_map inclusive_descendants (children note) ∧
  photo2 ≠ note ∧
  classify spec_config (src photo2) ≠ UNRELATED.
Proof.
  apply (only_image_descendants_are_filed spec_config (mk ∅ ∅) note photo2
           (Some "photo.png") [photo1; photo2; photo3]).
  - left. reflexivity.
  - repeat constructor.
Defined.

Lemma getLatestObjectVersion_outcome_witness :
  events (snd (getLatestObjectVersion (client_of (Some failing_store)) "a"
                 (world_of ∅)))
  = [SendListObjectVersions {| lov_Bucket := "notes"; lov_Prefix := "a" |}] ∧
  fst (getLatestObjectVersion (client_of (Some failing_store)) "a"
         (world_of ∅))
  = inl timeout.
Proof.
  destruct (getLatestObjectVersion_outcome (client_of (Some failing_store))
              failing_store "a" (world_of ∅) eq_refl)
    as (Hevents & _ & Hthrows).
  split; [exact Hevents|]. by apply Hthrows.
Defined.

Lemma getSignedUrlForObject_outcome_witness :
  getSignedUrlForObject spec_config (client_of (Some healthy_store)) "a"
    (world_of ∅)
  = (inr "https://bucket.example/a?signature",
     {| registry := ∅;
        events := [GetSignedUrl {| go_Bucket := "notes"; go_Key := "a" |}
                     3600] |}).
Proof.
  apply (getSignedUrlForObject_outcome spec_config
           (client_of (Some healthy_store)) healthy_store "a" (world_of ∅)).
  reflexivity.
Defined.

Lemma getObject_returns_iff_body_witness :
  ∃ stream,
    fst (getObject (client_of (Some healthy_store)) "a" "v2" (world_of ∅))
    = inr stream.
Proof.
  destruct (getObject_returns_iff_body (client_of (Some healthy_store))
              healthy_store "a" "v2" (world_of ∅) eq_refl) as ([_ Hreturns] & _).
  apply Hreturns. by eexists _, _.
Defined.

Lemma createS3Client_initialized_iff_witness :
  is_Some (s3Client (this (settled (createS3Client office
                                      (constructed (settings_with "work")))))).
Proof.
  apply (createS3Client_initialized_iff office
           (constructed (settings_with "work"))).
  - reflexivity.
  - split; [reflexivity|]. right. by exists work_credentials.
Defined.


Lemma lookup_finds_nothing_gone :
  lookup_finds_nothing office (settings_with "gone").
Proof. by split_and!. Qed.

Lemma missing_credentials_disable_client_witness :
  effects (settled (createS3Client office
                      (constructed (settings_with "gone"))))
  = [getAwsCredentials "gone"; setState_ERROR; saveSettings;
     sendNotification credentials_missing] ∧
  getObject
    (protocol_view
       (this (settled (createS3Client office
                         (constructed (settings_with "gone"))))))
    "a" "v2" (world_of ∅)
  = (inl notInitialized, world_of ∅).
Proof.
  destruct (missing_credentials_disable_client office spec_config
              (constructed (settings_with "gone")) "a" "v2" (world_of ∅)
              lookup_finds_nothing_gone eq_refl)
    as (Heffects & _ & _ & Hfetch & _).
  split; [exact Heffects|exact Hfetch].
Defined.

Lemma createS3Client_quiet_unless_lookup_fails_witness :
  settings (this (settled (createS3Client office
                             (constructed (settings_with "work")))))
  = settings_with "work" ∧
  effects (settled (createS3Client office
                      (constructed (settings_with "work"))))
  = [getAwsCredentials "work"].
Proof.
  apply (createS3Client_quiet_unless_lookup_fails office
           (constructed (settings_with "work"))).
  intros (_ & _ & Hnone). vm_compute in Hnone. discriminate.
Defined.

Lemma createS3Client_falls_back_to_static_keys_witness :
  let st1 := settled (createS3Client office
                        (constructed (settings_with "gone"))) in
  effects (settled (createS3Client office st1)) = effects st1 ∧
  s3Client (this (settled (createS3Client office st1)))
  = Some failing_store.
Proof.
  intros st1.
  destruct (createS3Client_falls_back_to_static_keys office
              (constructed (settings_with "gone"))
              lookup_finds_nothing_gone eq_refl)
    as (_ & Heffects & _ & Hclient & _).
  split; [exact Heffects|exact Hclient].
Defined.

Lemma initializeS3Client_on_return_witness :
  protocol_view
    (this (on_return (initializeS3Client office (settings_with "work")
                        (constructed (settings_with "")))))
  = {| Client.s3Client := None;
       Client.settings := {| bucketName := "notes" |} |} ∧
  s3Client
    (this (on_return (initializeS3Client office (settings_with "")
                        (constructed (settings_with "")))))
  = Some failing_store ∧
  s3Client
    (this (on_return (initializeS3Client office regionless
                        {| this := {| s3Client := Some healthy_store;
                                      settings := settings_with "" |};
                           effects := [] |})))
  = Some healthy_store.
Proof.
  destruct (initializeS3Client_on_return office (settings_with "work")
              (constructed (settings_with ""))) as (_ & Hpending & _).
  destruct (initializeS3Client_on_return office (settings_with "")
              (constructed (settings_with ""))) as (_ & _ & Hdone).
  destruct (initializeS3Client_on_return office regionless
              {| this := {| s3Client := Some healthy_store;
                            settings := settings_with "" |};
                 effects := [] |}) as (_ & _ & Hthrown).
  split_and!.
  - apply Hpending. reflexivity.
  - apply Hdone. reflexivity.
  - apply Hthrown. reflexivity.
Defined.

Lemma overlapping_initializations_mix_settings_witness :
  this (settled
          (woken_in
             (initializeS3Client office (settings_with "work")
                (constructed (settings_with "")))
             (on_return
                (initializeS3Client office (settings_with "none")
                   (on_return
                      (initializeS3Client office (settings_with "work")
                         (constructed (settings_with ""))))))))
  = {| s3Client := Some healthy_store; settings := settings_with "none" |}.
Proof.
  apply (overlapping_initializations_mix_settings office
           (settings_with "work") (settings_with "none") work_credentials
           failing_store (constructed (settings_with ""))); reflexivity.
Defined.

End ExtraScenarios.
